(** * wire-notifications.py: a shallow embedding and its verified properties

    The script patches seven TypeScript files of a web application with
    four text-editing helpers ([insert_import], [insert_after],
    [insert_before], [replace_text]) driven by [main].

    Modelling choices.
    - A Python [str] is a list of Unicode code points ([list N]).
    - The file system is a finite map from path to node; a regular file
      holds the text that [f.read()] returns for it.
    - Standard output is the list of printed lines.
    - A computation threads the world and either returns or raises. *)

From Stdlib Require Import ZArith NArith Ascii String List Lia Bool.
From stdpp Require Import gmap strings list.

Local Open Scope Z_scope.

(** ** Python strings *)

Definition char := N.
Definition str := list char.

Module PyStr.

(** Source literals are written as in the script: [unescape] turns the
    two characters backslash-n into a line feed, [utf8_decode] turns the
    UTF-8 bytes of the literal into code points. *)
Fixpoint unescape (s : string) : list N :=
  match s with
  | EmptyString => []
  | String a r =>
      match r with
      | String b r' =>
          if (Ascii.eqb a "\" && Ascii.eqb b "n")%bool
          then 10%N :: unescape r'
          else N_of_ascii a :: unescape r
      | EmptyString => [N_of_ascii a]
      end
  end.

Fixpoint utf8_decode (bs : list N) : str :=
  match bs with
  | [] => []
  | b :: r =>
      if (b <? 128)%N then b :: utf8_decode r
      else if (b <? 224)%N then
        match r with
        | b1 :: r1 => ((b - 192) * 64 + (b1 - 128))%N :: utf8_decode r1
        | _ => [b]
        end
      else if (b <? 240)%N then
        match r with
        | b1 :: b2 :: r2 =>
            ((b - 224) * 4096 + (b1 - 128) * 64 + (b2 - 128))%N :: utf8_decode r2
        | _ => [b]
        end
      else
        match r with
        | b1 :: b2 :: b3 :: r3 =>
            ((b - 240) * 262144 + (b1 - 128) * 4096 + (b2 - 128) * 64 + (b3 - 128))%N
              :: utf8_decode r3
        | _ => [b]
        end
  end.

Definition py (s : string) : str := utf8_decode (unescape s).

(** A run-time string such as a path, shown as it is (no escapes). *)
Fixpoint bytes (s : string) : list N :=
  match s with
  | EmptyString => []
  | String a r => N_of_ascii a :: bytes r
  end.

Definition text (s : string) : str := utf8_decode (bytes s).

Definition nl : char := 10%N.

Definition len (s : str) : Z := Z.of_nat (length s).

Definition nonempty (s : str) : bool :=
  match s with [] => false | _ => true end.

(** [s.startswith(p)] *)
Fixpoint startswith (s p : str) {struct p} : bool :=
  match p with
  | [] => true
  | a :: p' =>
      match s with
      | [] => false
      | b :: s' => (b =? a)%N && startswith s' p'
      end
  end.

(** Lowest and highest offsets at which [sub] occurs in [s]. *)
Fixpoint find_nat (s sub : str) : option nat :=
  if startswith s sub then Some 0%nat
  else match s with
       | [] => None
       | _ :: s' => option_map S (find_nat s' sub)
       end.

Fixpoint rfind_nat (s sub : str) : option nat :=
  match s with
  | [] => if startswith [] sub then Some 0%nat else None
  | _ :: s' =>
      match rfind_nat s' sub with
      | Some i => Some (S i)
      | None => if startswith s sub then Some 0%nat else None
      end
  end.

(** [sub in s] *)
Definition contains (s sub : str) : bool :=
  match find_nat s sub with Some _ => true | None => false end.

(** Slice bounds as CPython adjusts them. *)
Definition adjust (n i : Z) : Z :=
  if i <? 0 then Z.max 0 (n + i) else Z.min i n.

Definition slice (s : str) (lo hi : option Z) : str :=
  let n := len s in
  let a := match lo with None => 0 | Some i => adjust n i end in
  let b := match hi with None => n | Some j => adjust n j end in
  firstn (Z.to_nat (b - a)) (skipn (Z.to_nat a) s).

Definition window_end (n : Z) (e : option Z) : Z :=
  match e with
  | None => n
  | Some e => if e >? n then n else if e <? 0 then Z.max 0 (e + n) else e
  end.

Definition window_start (n st : Z) : Z :=
  if st <? 0 then Z.max 0 (st + n) else st.

(** [s.find(sub, start, end)]: -1 when absent. *)
Definition find (s sub : str) (start : Z) (end_ : option Z) : Z :=
  let e := window_end (len s) end_ in
  let st := window_start (len s) start in
  if e - st <? len sub then -1
  else match find_nat (firstn (Z.to_nat (e - st)) (skipn (Z.to_nat st) s)) sub with
       | Some i => st + Z.of_nat i
       | None => -1
       end.

(** [s.rfind(sub, start, end)]: -1 when absent. *)
Definition rfind (s sub : str) (start : Z) (end_ : option Z) : Z :=
  let e := window_end (len s) end_ in
  let st := window_start (len s) start in
  if e - st <? len sub then -1
  else match rfind_nat (firstn (Z.to_nat (e - st)) (skipn (Z.to_nat st) s)) sub with
       | Some i => st + Z.of_nat i
       | None => -1
       end.

(** [s.split(sep)] for a one-character separator. *)
Fixpoint split (sep : char) (s : str) : list str :=
  match s with
  | [] => [[]]
  | c :: s' =>
      if (c =? sep)%N then [] :: split sep s'
      else match split sep s' with
           | l :: ls => (c :: l) :: ls
           | [] => [[c]]
           end
  end.

(** [sep.join(parts)] *)
Fixpoint join (sep : str) (parts : list str) : str :=
  match parts with
  | [] => []
  | [p] => p
  | p :: ps => p ++ sep ++ join sep ps
  end.

(** [ch.isspace()] *)
Definition isspace (c : char) : bool :=
  ((9 <=? c) && (c <=? 13) || (28 <=? c) && (c <=? 32)
   || (c =? 133) || (c =? 160) || (c =? 5760)
   || (8192 <=? c) && (c <=? 8202)
   || (c =? 8232) || (c =? 8233) || (c =? 8239) || (c =? 8287) || (c =? 12288))%N.

Fixpoint lstrip (s : str) : str :=
  match s with
  | c :: s' => if isspace c then lstrip s' else s
  | [] => []
  end.

Definition rstrip (s : str) : str := rev (lstrip (rev s)).

(** [s.strip()] *)
Definition strip (s : str) : str := rstrip (lstrip s).

(** [s.replace(old, new, 1)] *)
Fixpoint replace1 (s old new : str) : str :=
  if startswith s old then new ++ skipn (length old) s
  else match s with
       | [] => []
       | c :: s' => c :: replace1 s' old new
       end.

(** [lst.insert(i, x)] *)
Definition list_insert {A} (l : list A) (i : Z) (x : A) : list A :=
  let k := Z.to_nat (adjust (Z.of_nat (length l)) i) in
  firstn k l ++ x :: skipn k l.

(** [enumerate(lst)] *)
Fixpoint enumerate_from {A} (i : Z) (l : list A) : list (Z * A) :=
  match l with
  | [] => []
  | x :: l' => (i, x) :: enumerate_from (i + 1) l'
  end.

Definition enumerate {A} (l : list A) : list (Z * A) := enumerate_from 0 l.

End PyStr.

Import PyStr.

(** ** The world: files, standard output, exceptions *)

Inductive exn :=
| SystemExit (code : Z)
| ValueError
| FileNotFoundError
| IsADirectoryError.

(** The exceptions that are file I/O errors (subclasses of [OSError]). *)
Definition is_io_error (e : exn) : bool :=
  match e with
  | FileNotFoundError | IsADirectoryError => true
  | _ => false
  end.

Inductive node :=
| File (content : str)
| Dir.

Record world := World {
  files : gmap string node;
  stdout : list str
}.

Inductive outcome (A : Type) :=
| Ret (a : A)
| Raise (e : exn).
Arguments Ret {A} a.
Arguments Raise {A} e.

Definition M (A : Type) : Type := world -> outcome A * world.

Definition ret {A} (a : A) : M A := fun w => (Ret a, w).

Definition raise {A} (e : exn) : M A := fun w => (Raise e, w).

Definition bind {A B} (c : M A) (k : A -> M B) : M B :=
  fun w =>
    match c w with
    | (Ret a, w') => k a w'
    | (Raise e, w') => (Raise e, w')
    end.

Notation "x <- c ;; k" := (bind c (fun x => k))
  (at level 100, c at next level, right associativity).
Notation "c ;; k" := (bind c (fun _ => k))
  (at level 100, right associativity).

(** [with open(path, 'r') as f: f.read()] *)
Definition read_file (path : string) : M str :=
  fun w =>
    match files w !! path with
    | Some (File c) => (Ret c, w)
    | Some Dir => (Raise IsADirectoryError, w)
    | None => (Raise FileNotFoundError, w)
    end.

(** [with open(path, 'w') as f: f.write(content)]; in the script every
    write follows a read of the same path. *)
Definition write_file (path : string) (content : str) : M unit :=
  fun w =>
    match files w !! path with
    | Some Dir => (Raise IsADirectoryError, w)
    | _ => (Ret tt, World (<[path := File content]> (files w)) (stdout w))
    end.

Definition print (line : str) : M unit :=
  fun w => (Ret tt, World (files w) (stdout w ++ [line])).

(** [os.path.exists] and [os.path.isdir] *)
Definition path_exists (path : string) : M bool :=
  fun w => (Ret (match files w !! path with Some _ => true | None => false end), w).

Definition path_isdir (path : string) : M bool :=
  fun w => (Ret (match files w !! path with Some Dir => true | _ => false end), w).

(** [content.index(sub, start)]: as [find], but raises when absent. *)
Definition index (s sub : str) (start : Z) : M Z :=
  let i := find s sub start None in
  if i =? -1 then raise ValueError else ret i.

(** The status with which the interpreter terminates. *)
Definition exit_status {A} (r : outcome A) : Z :=
  match r with
  | Ret _ => 0
  | Raise (SystemExit code) => code
  | Raise _ => 1
  end.

(** ** The script *)

Definition check_prereqs : M unit :=
  a <- path_exists "package.json" ;;
  b <- (if a then path_isdir "src/app/api" else ret false) ;;
  if negb a || negb b then
    print (py "❌ Run this script from the root of the deepterm-web repo.") ;;
    raise (SystemExit 1)
  else
    c <- path_exists "src/lib/node-red.ts" ;;
    if negb c then
      print (py "❌ src/lib/node-red.ts not found. Copy it first.") ;;
      raise (SystemExit 1)
    else
      print (py "✅ Prerequisites OK\n").

Definition last_import_idx (lines : list str) : Z :=
  fold_left (fun acc (p : Z * str) =>
               if startswith (snd p) (py "import ") then fst p else acc)
            (enumerate lines) (-1).

Definition insert_import (filepath : string) (import_line : str) : M unit :=
  content <- read_file filepath ;;
  if contains content import_line then ret tt
  else
    let lines := split nl content in
    let idx := last_import_idx lines in
    let lines :=
      if idx >=? 0 then list_insert lines (idx + 1) import_line
      else list_insert lines 0 import_line in
    write_file filepath (join [nl] lines).

(** The stripped lines of a block that are neither blank nor [//] comments. *)
Definition check_lines (code_block : str) : list str :=
  map strip
      (List.filter (fun l => nonempty (strip l) && negb (startswith (strip l) (py "//")))
                   (split nl (strip code_block))).

(** [check_lines and check_lines[0] in content] *)
Definition already_applied (content code_block : str) : bool :=
  match check_lines code_block with
  | [] => false
  | l :: _ => contains content l
  end.

Definition insert_after (filepath : string) (marker code_block : str) : M unit :=
  content <- read_file filepath ;;
  if already_applied content code_block then
    print (py "  ~ Already applied in " ++ text filepath)
  else
    let idx := find content marker 0 None in
    if idx =? -1 then
      print (py "  ⚠ Marker not found: " ++ slice marker None (Some 60))
    else
      end_of_line <- index content [nl] idx ;;
      let content := slice content None (Some (end_of_line + 1))
                       ++ code_block
                       ++ slice content (Some (end_of_line + 1)) None in
      write_file filepath content ;;
      print (py "  ✅ Patched").

Definition insert_before (filepath : string) (marker code_block : str) : M unit :=
  content <- read_file filepath ;;
  if already_applied content code_block then
    print (py "  ~ Already applied in " ++ text filepath)
  else
    let idx := find content marker 0 None in
    if idx =? -1 then
      print (py "  ⚠ Marker not found: " ++ slice marker None (Some 60))
    else
      let start_of_line := rfind content [nl] 0 (Some idx) + 1 in
      let content := slice content None (Some start_of_line)
                       ++ code_block
                       ++ slice content (Some start_of_line) None in
      write_file filepath content ;;
      print (py "  ✅ Patched").

Definition replace_text (filepath : string) (old_text new_text : str) : M unit :=
  content <- read_file filepath ;;
  if negb (contains content old_text) then
    if already_applied content new_text then
      print (py "  ~ Already applied in " ++ text filepath)
    else
      print (py "  ⚠ Text not found in " ++ text filepath ++ py ": "
               ++ slice old_text None (Some 60) ++ py "...")
  else
    let content := replace1 content old_text new_text in
    write_file filepath content ;;
    print (py "  ✅ Patched").

(** [s * n] *)
Definition str_mul (s : str) (n : nat) : str := concat (repeat s n).

(** The arguments of the seven patch steps, as written in [main]. *)
Module Patch.

Definition f1 : string := "src/app/api/app/issues/submit/route.ts".
Definition import1 : str := py "import { notifyNewIssue } from '@/lib/node-red';".
Definition marker1 : str :=
  py "return NextResponse.json({\n      success: true,\n      message: 'Issue submitted successfully'".
Definition block1 : str :=
  py "\n    // Notify Node-RED → WhatsApp (fire-and-forget)\n"
  ++ py "    notifyNewIssue({\n"
  ++ py "      id: issue.id,\n"
  ++ py "      title,\n"
  ++ py "      description,\n"
  ++ py "      area,\n"
  ++ py "      authorEmail: user.email,\n"
  ++ py "      source: 'app',\n"
  ++ py "    });\n\n".

Definition f2 : string := "src/app/api/issues/route.ts".
Definition import2 : str := py "import { notifyNewIssue } from '@/lib/node-red';".
Definition marker2 : str :=
  py "return NextResponse.json({ success: true, id: issue.id });".
Definition block2 : str :=
  py "\n  // Notify Node-RED → WhatsApp (fire-and-forget)\n"
  ++ py "  notifyNewIssue({\n"
  ++ py "    id: issue.id,\n"
  ++ py "    title,\n"
  ++ py "    description,\n"
  ++ py "    area,\n"
  ++ py "    authorEmail: session.user?.email || '',\n"
  ++ py "    source: 'website',\n"
  ++ py "  });\n\n".

Definition f3 : string := "src/app/api/ideas/route.ts".
Definition import3 : str := py "import { notifyNewIdea } from '@/lib/node-red';".
Definition marker3 : str := py "// Auto-vote for the author".
Definition block3 : str :=
  py "\n    // Notify Node-RED → WhatsApp (fire-and-forget)\n"
  ++ py "    notifyNewIdea({\n"
  ++ py "      id: idea.id,\n"
  ++ py "      title: idea.title,\n"
  ++ py "      description,\n"
  ++ py "      category: 'feature',\n"
  ++ py "      authorEmail: session.user?.email || '',\n"
  ++ py "    });\n\n".

Definition f4 : string := "src/app/api/ideas/[id]/vote/route.ts".
Definition import4 : str := py "import { notifyIdeaPopular } from '@/lib/node-red';".
Definition old4 : str :=
  py "return NextResponse.json({ \n        voted: true, \n        votes: voteCount \n      });".
Definition new4 : str :=
  py "// Check vote threshold → WhatsApp notification\n"
  ++ py "      const VOTE_THRESHOLD = 5;\n"
  ++ py "      if (voteCount >= VOTE_THRESHOLD && (voteCount - 1) < VOTE_THRESHOLD) {\n"
  ++ py "        notifyIdeaPopular({\n"
  ++ py "          id: ideaId,\n"
  ++ py "          title: idea.title,\n"
  ++ py "          voteCount,\n"
  ++ py "          threshold: VOTE_THRESHOLD,\n"
  ++ py "        });\n"
  ++ py "      }\n\n"
  ++ py "      return NextResponse.json({ \n        voted: true, \n        votes: voteCount \n      });".

Definition f5 : string := "src/app/api/stripe/webhook/route.ts".
Definition import5 : str := py "import { notifyPayment } from '@/lib/node-red';".
Definition old5a : str :=
  py "      cancelAtPeriodEnd: subscription.cancel_at_period_end,\n    },\n  });\n}".
Definition new5a : str :=
  py "      cancelAtPeriodEnd: subscription.cancel_at_period_end,\n"
  ++ py "    },\n"
  ++ py "  });\n"
  ++ py "\n"
  ++ py "  // Notify Node-RED → WhatsApp\n"
  ++ py "  notifyPayment({\n"
  ++ py "    event: 'subscription-created',\n"
  ++ py "    email: session.customer_email || '',\n"
  ++ py "    plan: await getPlanFromPriceId(subscription.items.data[0].price.id),\n"
  ++ py "    amount: subscription.items.data[0].price.unit_amount || 0,\n"
  ++ py "  });\n"
  ++ py "}".
Definition old5b : str :=
  py "// TODO: Send email notification about failed payment".
Definition new5b : str :=
  py "// Notify Node-RED → WhatsApp\n"
  ++ py "  notifyPayment({\n"
  ++ py "    event: 'payment-failed',\n"
  ++ py "    email: (invoice as any).customer_email || '',\n"
  ++ py "    plan: team.plan || 'unknown',\n"
  ++ py "    amount: invoice.amount_due,\n"
  ++ py "    details: 'Invoice payment failed',\n"
  ++ py "  });".

Definition f6 : string := "src/app/api/admin/downloads/upload/route.ts".
Definition import6 : str := py "import { notifyRelease } from '@/lib/node-red';".
Definition marker6 : str :=
  py "return NextResponse.json({\n      success: true,\n      message: 'Release uploaded successfully.'".
Definition block6 : str :=
  py "\n    // Notify Node-RED → WhatsApp\n"
  ++ py "    notifyRelease({\n"
  ++ py "      version: resolvedVersion,\n"
  ++ py "      platform,\n"
  ++ py "      releaseNotes: releaseNotes || undefined,\n"
  ++ py "    });\n\n".

Definition f7 : string := "src/lib/intrusion.ts".
Definition import7 : str := py "import { notifySecurityAlert } from '@/lib/node-red';".
Definition marker7 : str :=
  py ".catch(err => console.error('[Intrusion] Email send failed:', err));".
Definition block7 : str :=
  py "\n      // Also notify via WhatsApp (fire-and-forget)\n"
  ++ py "      notifySecurityAlert({\n"
  ++ py "        severity,\n"
  ++ py "        eventType: escalatedType,\n"
  ++ py "        sourceIp: event.ip,\n"
  ++ py "        details: `${count} events in ${WINDOW_MS / 60000}min – path: ${event.path || '-'}`,\n"
  ++ py "      }).catch(() => {});\n".

End Patch.

(** The seven patch steps of [main], without its console banners. *)
Definition step1 : M unit :=
  print (py "📝 [1/7] App issue submission → notifyNewIssue()") ;;
  insert_import Patch.f1 Patch.import1 ;;
  insert_before Patch.f1 Patch.marker1 Patch.block1.

Definition step2 : M unit :=
  print (py "\n📝 [2/7] Website issue submission → notifyNewIssue()") ;;
  insert_import Patch.f2 Patch.import2 ;;
  insert_before Patch.f2 Patch.marker2 Patch.block2.

Definition step3 : M unit :=
  print (py "\n📝 [3/7] Idea submission → notifyNewIdea()") ;;
  insert_import Patch.f3 Patch.import3 ;;
  insert_after Patch.f3 Patch.marker3 Patch.block3.

Definition step4 : M unit :=
  print (py "\n📝 [4/7] Idea vote threshold → notifyIdeaPopular()") ;;
  insert_import Patch.f4 Patch.import4 ;;
  replace_text Patch.f4 Patch.old4 Patch.new4.

Definition step5 : M unit :=
  print (py "\n📝 [5/7] Stripe webhook → notifyPayment()") ;;
  insert_import Patch.f5 Patch.import5 ;;
  replace_text Patch.f5 Patch.old5a Patch.new5a ;;
  replace_text Patch.f5 Patch.old5b Patch.new5b.

Definition step6 : M unit :=
  print (py "\n📝 [6/7] Release upload → notifyRelease()") ;;
  insert_import Patch.f6 Patch.import6 ;;
  insert_before Patch.f6 Patch.marker6 Patch.block6.

Definition step7 : M unit :=
  print (py "\n📝 [7/7] Security alerts → notifySecurityAlert()") ;;
  insert_import Patch.f7 Patch.import7 ;;
  insert_after Patch.f7 Patch.marker7 Patch.block7.

Definition patches : M unit :=
  step1 ;; step2 ;; step3 ;; step4 ;; step5 ;; step6 ;; step7.

Definition main : M unit :=
  print (str_mul (py "═") 55) ;;
  print (py "  Wiring Node-RED notifications into DeepTerm") ;;
  print (str_mul (py "═") 55 ++ py "\n") ;;
  check_prereqs ;;
  patches ;;
  print (py "\n" ++ str_mul (py "═") 55) ;;
  print (py "  ✅ All 7 files patched!") ;;
  print [] ;;
  print (py "  Next steps:") ;;
  print (py "  1. Review:   git diff") ;;
  print (py "  2. Build:    npm run build") ;;
  print (py "  3. Restart:  pm2 restart deepterm") ;;
  print (py "  4. Test:     Submit an issue from the app or website") ;;
  print (str_mul (py "═") 55).

(** The text held at a path, when it is a regular file. *)
Definition file_text (w : world) (path : string) : option str :=
  match files w !! path with
  | Some (File c) => Some c
  | _ => None
  end.

(** Running a computation: its outcome and the world it leaves. *)
Definition result {A} (c : M A) (w : world) : outcome A := fst (c w).
Definition after {A} (c : M A) (w : world) : world := snd (c w).

(** ** Notions used to state the properties *)

(** [sub] occurs in [s] at offset [i]. *)
Definition occurs_at (sub s : str) (i : nat) : Prop :=
  (i <= length s)%nat /\ startswith (skipn i s) sub = true.

(** The lines the helpers print. *)
Definition msg_already (filepath : string) : str :=
  py "  ~ Already applied in " ++ text filepath.
Definition msg_marker_not_found (marker : str) : str :=
  py "  ⚠ Marker not found: " ++ slice marker None (Some 60).
Definition msg_text_not_found (filepath : string) (old_text : str) : str :=
  py "  ⚠ Text not found in " ++ text filepath ++ py ": "
    ++ slice old_text None (Some 60) ++ py "...".
Definition msg_patched : str := py "  ✅ Patched".

(** The world after one more printed line, and after one file is rewritten. *)
Definition say (w : world) (line : str) : world :=
  World (files w) (stdout w ++ [line]).
Definition store (w : world) (path : string) (content : str) : world :=
  World (<[path := File content]> (files w)) (stdout w).

(** Offset of the start of the line that holds offset [i]. *)
Definition line_start (s : str) (i : nat) : nat :=
  match rfind_nat (firstn i s) [nl] with
  | Some j => S j
  | None => 0%nat
  end.

(** Offset just past the first line break at or after offset [i], if any. *)
Definition line_end (s : str) (i : nat) : option nat :=
  match find_nat (skipn i s) [nl] with
  | Some j => Some (S (i + j))
  | None => None
  end.

(** A call that returns normally, touches no file, prints exactly [warning],
    and hands over to whatever comes next. *)
Definition warns_and_continues (step : M unit) (w : world) (warning : str) : Prop :=
  result step w = Ret tt
  /\ files (after step w) = files w
  /\ stdout (after step w) = stdout w ++ [warning]
  /\ forall next : M unit, (step ;; next) w = next (after step w).

(** [block] spliced into [c] at offset [k]. *)
Definition splice (c block : str) (k : nat) : str :=
  firstn k c ++ block ++ skipn k c.

(** The first line of a text, in the spec's wording for the replace-once
    fallback. *)
Definition first_line (s : str) : str := hd [] (split nl s).


(** Number of offsets at which [sub] occurs in [s]. *)
Fixpoint occurrences (s sub : str) : nat :=
  ((if startswith s sub then 1 else 0)
   + match s with
     | [] => 0
     | _ :: s' => occurrences s' sub
     end)%nat.

(** A project tree that passes the prerequisite checks, with the seven
    target files holding the given texts. *)
Definition project (c1 c2 c3 c4 c5 c6 c7 : str) : world :=
  World (<["package.json" := File (py "{}\n")]>
         (<["src/app/api" := Dir]>
         (<["src/lib/node-red.ts" := File (py "export {};\n")]>
         (<[Patch.f1 := File c1]>
         (<[Patch.f2 := File c2]>
         (<[Patch.f3 := File c3]>
         (<[Patch.f4 := File c4]>
         (<[Patch.f5 := File c5]>
         (<[Patch.f6 := File c6]>
         (<[Patch.f7 := File c7]> ∅))))))))))
        [].

(** A vote route as the fourth patch expects it. *)
Definition vote_route : str :=
  py "import { NextResponse } from 'next/server';\n"
  ++ py "\n"
  ++ py "export async function POST() {\n"
  ++ py "      return NextResponse.json({ \n        voted: true, \n        votes: voteCount \n      });\n"
  ++ py "}\n".

Definition other_route : str := py "export {};\n".

Definition vote_project : world :=
  project other_route other_route other_route vote_route other_route other_route other_route.

(** The outcome and the files left depend on the files only, not on what
    was printed before. *)
Definition files_only {A} (c : M A) : Prop :=
  forall w1 w2, files w1 = files w2 ->
    result c w1 = result c w2 /\ files (after c w1) = files (after c w2).

(** The computation never leaves through [sys.exit]. *)
Definition no_exit {A} (c : M A) : Prop :=
  forall w, match result c w with
            | Raise (SystemExit _) => False
            | _ => True
            end.

(** The computation raises nothing but file I/O errors. *)
Definition only_io {A} (c : M A) : Prop :=
  forall w e, result c w = Raise e -> is_io_error e = true.

(** The three checks of [check_prereqs] on the file system. *)
Definition prereqs_ok (w : world) : bool :=
  match files w !! "package.json" with
  | Some _ =>
      match files w !! "src/app/api" with
      | Some Dir =>
          match files w !! "src/lib/node-red.ts" with
          | Some _ => true
          | None => false
          end
      | _ => false
      end
  | None => false
  end.


(** Occurrences of [x] in a text, summed line by line. *)
Definition per_line (x : str) (lines : list str) : nat :=
  fold_right (fun l acc => (occurrences l x + acc)%nat) 0%nat lines.

(** The text [insert_import] leaves in the file. *)
Definition import_inserted (content import_line : str) : str :=
  if contains content import_line then content
  else join [nl]
         (let lines := split nl content in
          let idx := last_import_idx lines in
          if idx >=? 0 then list_insert lines (idx + 1) import_line
          else list_insert lines 0 import_line).

(** The computation changes no file other than [f]. *)
Definition touches_only {A} (f : string) (c : M A) : Prop :=
  forall w g, g <> f -> files (after c w) !! g = files w !! g.

(** The steps of a list, one after the other. *)
Definition run_all (l : list (M unit)) : M unit :=
  fold_right (fun (step rest : M unit) => step ;; rest) (ret tt) l.

(** The seven steps with the file each one patches. *)
Definition steps : list (string * M unit) :=
  [ (Patch.f1, step1); (Patch.f2, step2); (Patch.f3, step3); (Patch.f4, step4);
    (Patch.f5, step5); (Patch.f6, step6); (Patch.f7, step7) ].




(** How a call on the path [f] ends, by what [f] is: [on_file t] says
    what happens on a regular file holding [t]. *)
Definition ends_by_kind (h : M unit) (w : world) (f : string)
    (on_file : str -> Prop) : Prop :=
  match files w !! f with
  | None => h w = (Raise FileNotFoundError, w)
  | Some Dir => h w = (Raise IsADirectoryError, w)
  | Some (File t) => on_file t
  end.

(** Two directory entries of the same kind: both absent, both directories
    or both regular files. *)
Definition same_kind (a b : option node) : Prop :=
  match a, b with
  | None, None => True
  | Some Dir, Some Dir => True
  | Some (File _), Some (File _) => True
  | _, _ => False
  end.

(** The computation creates no path, removes none, and never turns a
    file into a directory or back. *)
Definition keeps_kinds {A} (c : M A) : Prop :=
  forall w (g : string), same_kind (files w !! g) (files (after c w) !! g).

(** The outcome of the computation, what it prints and what it leaves at
    the path [f] depend on nothing but what is at [f]. *)
Definition local_to {A} (f : string) (c : M A) : Prop :=
  forall w1 w2, files w1 !! f = files w2 !! f ->
    result c w1 = result c w2
    /\ files (after c w1) !! f = files (after c w2) !! f
    /\ exists out : list str,
         stdout (after c w1) = stdout w1 ++ out
         /\ stdout (after c w2) = stdout w2 ++ out.

(** ** Facts about the string operations *)

Section StringFacts.

Implicit Types (s sub p a b : str) (c : char) (i j k : nat).

Lemma startswith_spec s p : startswith s p = true <-> exists r, s = p ++ r.
Proof.
  revert s; induction p as [|x p IH]; intros s; simpl.
  - split; [intros _; exists s; reflexivity | reflexivity].
  - destruct s as [|y s]; simpl.
    + split; [discriminate | intros [r Hr]; discriminate].
    + rewrite andb_true_iff, N.eqb_eq, IH. split.
      * intros [-> [r ->]]. exists r; reflexivity.
      * intros [r Hr]. injection Hr as -> ->. split; [reflexivity | exists r; reflexivity].
Qed.

Lemma startswith_app p r : startswith (p ++ r) p = true.
Proof. apply startswith_spec. exists r; reflexivity. Qed.

Lemma startswith_length s p : startswith s p = true -> (length p <= length s)%nat.
Proof.
  intros H; apply startswith_spec in H as [r ->]. rewrite length_app; lia.
Qed.

Lemma occurs_at_split sub s i :
  occurs_at sub s i <-> s = firstn i s ++ sub ++ skipn (i + length sub) s /\ (i <= length s)%nat.
Proof.
  unfold occurs_at. rewrite startswith_spec. split.
  - intros [Hi [r Hr]]. split; [|exact Hi].
    rewrite <- drop_drop, Hr, drop_app_length, <- Hr.
    symmetry; apply take_drop.
  - intros [Hs Hi]. split; [exact Hi|].
    exists (skipn (i + length sub) s).
    rewrite Hs at 1. rewrite drop_app_length'; [reflexivity|].
    rewrite length_take. lia.
Qed.

Lemma occurs_at_app a sub b : occurs_at sub (a ++ sub ++ b) (length a).
Proof.
  split; [rewrite length_app; lia|].
  rewrite drop_app_length. apply startswith_app.
Qed.

Lemma find_nat_Some s sub i :
  find_nat s sub = Some i ->
  occurs_at sub s i /\ forall j, (j < i)%nat -> startswith (skipn j s) sub = false.
Proof.
  unfold occurs_at. revert i; induction s as [|x s IH]; intros i; simpl.
  - destruct sub; simpl; [|discriminate].
    intros [= <-]. repeat split; [lia | intros; lia].
  - destruct (startswith (x :: s) sub) eqn:E.
    + intros [= <-]. simpl. repeat split; [lia | exact E | intros; lia].
    + destruct (find_nat s sub) as [n|] eqn:F; simpl; [|discriminate].
      intros [= <-]. destruct (IH n eq_refl) as [[Hn Hs] Hlt].
      repeat split; [lia | exact Hs |].
      intros [|j] Hj; simpl; [exact E | apply Hlt; lia].
Qed.

Lemma find_nat_None s sub :
  find_nat s sub = None -> forall j, startswith (skipn j s) sub = false.
Proof.
  induction s as [|x s IH]; simpl.
  - destruct sub; simpl; [discriminate|]. intros _ j. rewrite drop_nil. reflexivity.
  - destruct (startswith (x :: s) sub) eqn:E; [discriminate|].
    destruct (find_nat s sub) eqn:F; simpl; [discriminate|].
    intros _ [|j]; simpl; [exact E | apply IH; reflexivity].
Qed.


Lemma find_nat_bound s sub i :
  find_nat s sub = Some i -> (i + length sub <= length s)%nat.
Proof.
  intros H. apply find_nat_Some in H as [[Hi Hs] _].
  apply startswith_length in Hs. rewrite length_drop in Hs. lia.
Qed.

Lemma contains_spec s sub : contains s sub = true <-> exists a b, s = a ++ sub ++ b.
Proof.
  unfold contains. split.
  - destruct (find_nat s sub) as [i|] eqn:F; [|discriminate]. intros _.
    apply find_nat_Some in F as [H _]. apply occurs_at_split in H as [H _].
    eauto.
  - intros (a & b & ->). destruct (find_nat _ sub) eqn:F; [reflexivity|].
    pose proof (find_nat_None _ _ F (length a)) as H.
    destruct (occurs_at_app a sub b) as [_ H']. congruence.
Qed.

Lemma contains_false s sub :
  contains s sub = false <-> forall a b, s <> a ++ sub ++ b.
Proof.
  split.
  - intros H a b E. assert (contains s sub = true) by (apply contains_spec; eauto).
    congruence.
  - intros H. destruct (contains s sub) eqn:E; [|reflexivity].
    apply contains_spec in E as (a & b & E). destruct (H a b E).
Qed.

Lemma contains_find_nat s sub : contains s sub = false <-> find_nat s sub = None.
Proof. unfold contains. destruct (find_nat s sub); split; congruence. Qed.

(** *** The Python-level searches used by the script *)

Lemma find_whole s sub :
  find s sub 0 None =
  match find_nat s sub with Some i => Z.of_nat i | None => -1 end.
Proof.
  unfold find, window_end, window_start, len. simpl.
  rewrite Z.sub_0_r, Nat2Z.id, drop_0, firstn_all.
  destruct (Z.ltb_spec (Z.of_nat (length s)) (Z.of_nat (length sub))) as [H|H];
    [|reflexivity].
  destruct (find_nat s sub) as [i|] eqn:F; [|reflexivity].
  apply find_nat_bound in F. lia.
Qed.

Lemma find_absent s sub : find s sub 0 None = -1 <-> contains s sub = false.
Proof.
  rewrite find_whole, contains_find_nat.
  destruct (find_nat s sub); split; intros; try congruence; lia.
Qed.

End StringFacts.

Implicit Types (s sub p a b : str) (c : char) (i j k : nat).

Lemma find_from s sub k :
  (k <= length s)%nat ->
  find s sub (Z.of_nat k) None =
  match find_nat (skipn k s) sub with
  | Some i => Z.of_nat (k + i)
  | None => -1
  end.
Proof.
  intros Hk. unfold find, window_end, window_start, len.
  destruct (Z.ltb_spec (Z.of_nat k) 0) as [H0|_]; [lia|].
  replace (Z.to_nat (Z.of_nat (length s) - Z.of_nat k)) with (length (skipn k s))
    by (rewrite length_drop; lia).
  rewrite Nat2Z.id, firstn_all.
  destruct (Z.ltb_spec (Z.of_nat (length s) - Z.of_nat k) (Z.of_nat (length sub))) as [H|H].
  - destruct (find_nat (skipn k s) sub) as [i|] eqn:F; [|reflexivity].
    apply find_nat_bound in F. rewrite length_drop in F. lia.
  - destruct (find_nat (skipn k s) sub); [|reflexivity]. lia.
Qed.

Lemma slice_to s k : slice s None (Some (Z.of_nat k)) = firstn k s.
Proof.
  unfold slice, adjust, len.
  destruct (Z.ltb_spec (Z.of_nat k) 0) as [H|_]; [lia|].
  rewrite Z.sub_0_r, drop_0.
  destruct (Nat.le_gt_cases k (length s)).
  - f_equal. lia.
  - rewrite !take_ge; [reflexivity| lia | lia].
Qed.

Lemma slice_from s k : slice s (Some (Z.of_nat k)) None = skipn k s.
Proof.
  unfold slice, adjust, len.
  destruct (Z.ltb_spec (Z.of_nat k) 0) as [H|_]; [lia|].
  destruct (Nat.le_gt_cases k (length s)).
  - replace (Z.to_nat (Z.of_nat k `min` Z.of_nat (length s))) with k by lia.
    apply take_ge. rewrite length_drop. lia.
  - replace (Z.to_nat (Z.of_nat k `min` Z.of_nat (length s))) with (length s) by lia.
    rewrite (drop_ge s k) by lia. rewrite drop_all. apply take_nil.
Qed.

(** *** Searching for one character *)

Lemma startswith_char s c : startswith s [c] = true <-> exists r, s = c :: r.
Proof. rewrite startswith_spec. reflexivity. Qed.

Lemma find_nat_char_cons x s c :
  find_nat (x :: s) [c] = if (x =? c)%N then Some 0%nat else option_map S (find_nat s [c]).
Proof. simpl. rewrite andb_true_r. reflexivity. Qed.

Lemma find_nat_char_None s c : find_nat s [c] = None <-> c ∉ s.
Proof.
  induction s as [|x s IH].
  - simpl. split; [intros _; apply not_elem_of_nil | reflexivity].
  - rewrite find_nat_char_cons, not_elem_of_cons.
    destruct (N.eqb_spec x c) as [->|Hx].
    + split; [discriminate | intros [H _]; congruence].
    + destruct (find_nat s [c]); simpl.
      * split; [discriminate|]. intros [_ H]. apply IH in H. discriminate.
      * split; [|reflexivity]. intros _. split; [congruence | apply IH; reflexivity].
Qed.

Lemma find_nat_char_Some s c i :
  find_nat s [c] = Some i <->
  exists a b, s = a ++ c :: b /\ length a = i /\ c ∉ a.
Proof.
  revert i; induction s as [|x s IH]; intros i.
  - simpl. split; [discriminate|]. intros (a & b & H & _). destruct a; discriminate.
  - rewrite find_nat_char_cons. destruct (N.eqb_spec x c) as [->|Hx].
    + split.
      * intros [= <-]. exists [], s. repeat split. apply not_elem_of_nil.
      * intros (a & b & H & <- & Ha). destruct a as [|y a]; [reflexivity|].
        injection H as <- _. exfalso. apply Ha. left.
    + split.
      * destruct (find_nat s [c]) as [n|] eqn:F; simpl; [|discriminate].
        intros [= <-]. destruct (proj1 (IH n) eq_refl) as (a & b & -> & <- & Ha).
        exists (x :: a), b. repeat split. apply not_elem_of_cons; split; [congruence | exact Ha].
      * intros (a & b & H & <- & Ha). destruct a as [|y a]; [simpl in H; congruence|].
        injection H as <- ->. apply not_elem_of_cons in Ha as [_ Ha].
        rewrite (proj2 (IH (length a))); [reflexivity|]. exists a, b; auto.
Qed.

Lemma rfind_nat_char_cons x s c :
  rfind_nat (x :: s) [c] =
  match rfind_nat s [c] with
  | Some i => Some (S i)
  | None => if (x =? c)%N then Some 0%nat else None
  end.
Proof. simpl. rewrite andb_true_r. reflexivity. Qed.

Lemma rfind_nat_char_None s c : rfind_nat s [c] = None <-> c ∉ s.
Proof.
  induction s as [|x s IH].
  - simpl. split; [intros _; apply not_elem_of_nil | reflexivity].
  - rewrite rfind_nat_char_cons, not_elem_of_cons.
    destruct (rfind_nat s [c]) as [n|].
    + split; [discriminate|]. intros [_ H]. apply IH in H. discriminate.
    + destruct (N.eqb_spec x c) as [->|Hx].
      * split; [discriminate | intros [H _]; congruence].
      * split; [|reflexivity]. intros _. split; [congruence | apply IH; reflexivity].
Qed.

Lemma rfind_nat_char_Some s c i :
  rfind_nat s [c] = Some i <->
  exists a b, s = a ++ c :: b /\ length a = i /\ c ∉ b.
Proof.
  revert i; induction s as [|x s IH]; intros i.
  - simpl. split; [discriminate|]. intros (a & b & H & _). destruct a; discriminate.
  - rewrite rfind_nat_char_cons.
    destruct (rfind_nat s [c]) as [n|] eqn:F.
    + destruct (proj1 (IH n) eq_refl) as (a & b & -> & <- & Hb). split.
      * intros [= <-]. exists (x :: a), b. auto.
      * intros (a' & b' & H & <- & Hb'). destruct a' as [|y a'].
        -- injection H as -> <-. exfalso. apply Hb'.
           apply elem_of_app. right. left.
        -- injection H as <- H. f_equal. simpl. f_equal.
           assert (Some (length a) = Some (length a')) as E
             by (apply IH; exists a', b'; auto).
           congruence.
    + apply rfind_nat_char_None in F. destruct (N.eqb_spec x c) as [->|Hx].
      * split.
        -- intros [= <-]. exists [], s. auto.
        -- intros (a & b & H & <- & Hb). destruct a as [|y a]; [reflexivity|].
           injection H as <- ->. exfalso. apply F. apply elem_of_app. right. left.
      * split; [discriminate|]. intros (a & b & H & _ & _).
        destruct a as [|y a]; injection H as <- ->; [congruence|].
        exfalso. apply F. apply elem_of_app. right. left.
Qed.

Lemma rfind_nat_bound s sub i :
  rfind_nat s sub = Some i -> (i + length sub <= length s)%nat.
Proof.
  revert i; induction s as [|x s IH]; intros i; simpl.
  - destruct sub; simpl; [|discriminate]. intros [= <-]. simpl. lia.
  - destruct (rfind_nat s sub) as [n|].
    + intros [= <-]. specialize (IH n eq_refl). lia.
    + destruct (startswith (x :: s) sub) eqn:E; [|discriminate].
      intros [= <-]. apply startswith_length in E. simpl in *. lia.
Qed.

Lemma rfind_upto s sub k :
  (k <= length s)%nat ->
  rfind s sub 0 (Some (Z.of_nat k)) =
  match rfind_nat (firstn k s) sub with
  | Some i => Z.of_nat i
  | None => -1
  end.
Proof.
  intros Hk. unfold rfind, window_end, window_start, len. simpl.
  destruct (Z.gtb_spec (Z.of_nat k) (Z.of_nat (length s))) as [H|_]; [lia|].
  destruct (Z.ltb_spec (Z.of_nat k) 0) as [H|_]; [lia|].
  rewrite Z.sub_0_r, Nat2Z.id, drop_0.
  destruct (Z.ltb_spec (Z.of_nat k) (Z.of_nat (length sub))) as [H|H]; [|reflexivity].
  destruct (rfind_nat (firstn k s) sub) as [i|] eqn:F; [|reflexivity].
  apply rfind_nat_bound in F. rewrite length_take in F. lia.
Qed.

(** ** How each helper runs on a regular file *)

Lemma line_start_spec s i :
  (i <= length s)%nat ->
  exists a l, firstn i s = a ++ l /\ length a = line_start s i /\ (nl ∉ l)
              /\ (a = [] \/ exists a', a = a' ++ [nl]).
Proof.
  intros Hi. unfold line_start.
  destruct (rfind_nat (firstn i s) [nl]) as [j|] eqn:F.
  - apply rfind_nat_char_Some in F as (a & l & E & <- & Hl).
    exists (a ++ [nl]), l. rewrite <- app_assoc. simpl.
    repeat split; [exact E | rewrite length_app; simpl; lia | exact Hl | right; eauto].
  - apply rfind_nat_char_None in F. exists [], (firstn i s). auto.
Qed.

Lemma line_start_le s i : (line_start s i <= i)%nat.
Proof.
  unfold line_start. destruct (rfind_nat (firstn i s) [nl]) as [j|] eqn:F; [|lia].
  apply rfind_nat_bound in F. rewrite length_take in F. simpl in F. lia.
Qed.

Lemma line_end_spec s i k :
  line_end s i = Some k ->
  exists l r, skipn i s = l ++ nl :: r /\ k = (i + length l + 1)%nat /\ (nl ∉ l).
Proof.
  unfold line_end. destruct (find_nat (skipn i s) [nl]) as [j|] eqn:F; [|discriminate].
  intros [= <-]. apply find_nat_char_Some in F as (l & r & E & <- & Hl).
  exists l, r. repeat split; [exact E | lia | exact Hl].
Qed.


Lemma line_end_bound s i k :
  (i <= length s)%nat -> line_end s i = Some k -> (i < k <= length s)%nat.
Proof.
  intros Hi H. apply line_end_spec in H as (l & r & E & -> & _).
  assert (length (skipn i s) = length (l ++ nl :: r)) as HL by (rewrite E; reflexivity).
  rewrite length_drop, length_app in HL. simpl in HL. lia.
Qed.

Section OnFile.

Context (w : world) (f : string) (c : str).
Hypothesis Hf : files w !! f = Some (File c).

Lemma read_file_ok : read_file f w = (Ret c, w).
Proof. unfold read_file. rewrite Hf. reflexivity. Qed.

Lemma write_file_ok (c' : str) : write_file f c' w = (Ret tt, store w f c').
Proof. unfold write_file. rewrite Hf. reflexivity. Qed.

Lemma insert_import_present imp :
  contains c imp = true -> insert_import f imp w = (Ret tt, w).
Proof.
  intros H. unfold insert_import, bind. rewrite read_file_ok, H. reflexivity.
Qed.

Lemma insert_import_absent imp :
  contains c imp = false ->
  insert_import f imp w =
  (Ret tt,
   store w f (join [nl]
     (let lines := split nl c in
      let idx := last_import_idx lines in
      if idx >=? 0 then list_insert lines (idx + 1) imp
      else list_insert lines 0 imp))).
Proof.
  intros H. unfold insert_import, bind. rewrite read_file_ok, H.
  apply write_file_ok.
Qed.

Lemma insert_before_already m b :
  already_applied c b = true ->
  insert_before f m b w = (Ret tt, say w (msg_already f)).
Proof.
  intros H. unfold insert_before, bind. rewrite read_file_ok, H. reflexivity.
Qed.

Lemma insert_before_absent m b :
  already_applied c b = false -> contains c m = false ->
  insert_before f m b w = (Ret tt, say w (msg_marker_not_found m)).
Proof.
  intros H Hm. unfold insert_before, bind. rewrite read_file_ok, H.
  apply find_absent in Hm. rewrite Hm. reflexivity.
Qed.

Lemma insert_before_patch m b i :
  already_applied c b = false -> find_nat c m = Some i ->
  insert_before f m b w =
  (Ret tt, say (store w f (firstn (line_start c i) c ++ b ++ skipn (line_start c i) c))
               msg_patched).
Proof.
  intros H F. unfold insert_before, bind. rewrite read_file_ok, H.
  rewrite find_whole, F.
  destruct (Z.eqb_spec (Z.of_nat i) (-1)) as [E|_]; [lia|].
  assert (i <= length c)%nat as Hi by (apply find_nat_bound in F; lia).
  rewrite (rfind_upto _ _ _ Hi).
  replace (match rfind_nat (firstn i c) [nl] with
           | Some j => Z.of_nat j | None => -1 end + 1)
    with (Z.of_nat (line_start c i))
    by (unfold line_start; destruct (rfind_nat (firstn i c) [nl]); lia).
  rewrite slice_to, slice_from.
  rewrite write_file_ok. reflexivity.
Qed.

Lemma insert_after_already m b :
  already_applied c b = true ->
  insert_after f m b w = (Ret tt, say w (msg_already f)).
Proof.
  intros H. unfold insert_after, bind. rewrite read_file_ok, H. reflexivity.
Qed.

Lemma insert_after_absent m b :
  already_applied c b = false -> contains c m = false ->
  insert_after f m b w = (Ret tt, say w (msg_marker_not_found m)).
Proof.
  intros H Hm. unfold insert_after, bind. rewrite read_file_ok, H.
  apply find_absent in Hm. rewrite Hm. reflexivity.
Qed.

Lemma index_from s k :
  (k <= length s)%nat ->
  index s [nl] (Z.of_nat k) =
  match line_end s k with
  | Some e => ret (Z.of_nat e - 1)
  | None => raise ValueError
  end.
Proof.
  intros Hk. unfold index, line_end. rewrite (find_from _ _ _ Hk).
  destruct (find_nat (skipn k s) [nl]) as [j|]; [|reflexivity].
  destruct (Z.eqb_spec (Z.of_nat (k + j)) (-1)) as [E|_]; [lia|].
  f_equal. lia.
Qed.

Lemma insert_after_raises m b i :
  already_applied c b = false -> find_nat c m = Some i -> line_end c i = None ->
  insert_after f m b w = (Raise ValueError, w).
Proof.
  intros H F L. unfold insert_after, bind. rewrite read_file_ok, H.
  rewrite find_whole, F.
  destruct (Z.eqb_spec (Z.of_nat i) (-1)) as [E|_]; [lia|].
  assert (i <= length c)%nat as Hi by (apply find_nat_bound in F; lia).
  rewrite (index_from _ _ Hi), L. reflexivity.
Qed.

Lemma insert_after_patch m b i k :
  already_applied c b = false -> find_nat c m = Some i -> line_end c i = Some k ->
  insert_after f m b w =
  (Ret tt, say (store w f (firstn k c ++ b ++ skipn k c)) msg_patched).
Proof.
  intros H F L. unfold insert_after, bind. rewrite read_file_ok, H.
  rewrite find_whole, F.
  destruct (Z.eqb_spec (Z.of_nat i) (-1)) as [E|_]; [lia|].
  assert (i <= length c)%nat as Hi by (apply find_nat_bound in F; lia).
  rewrite (index_from _ _ Hi), L. unfold ret.
  pose proof (line_end_bound _ _ _ Hi L) as Hk.
  replace (Z.of_nat k - 1 + 1) with (Z.of_nat k) by lia.
  rewrite slice_to, slice_from.
  rewrite write_file_ok. reflexivity.
Qed.

Lemma replace_text_already old new :
  contains c old = false -> already_applied c new = true ->
  replace_text f old new w = (Ret tt, say w (msg_already f)).
Proof.
  intros H A. unfold replace_text, bind. rewrite read_file_ok, H, A. reflexivity.
Qed.

Lemma replace_text_absent old new :
  contains c old = false -> already_applied c new = false ->
  replace_text f old new w = (Ret tt, say w (msg_text_not_found f old)).
Proof.
  intros H A. unfold replace_text, bind. rewrite read_file_ok, H, A. reflexivity.
Qed.

Lemma replace_text_patch old new :
  contains c old = true ->
  replace_text f old new w =
  (Ret tt, say (store w f (replace1 c old new)) msg_patched).
Proof.
  intros H. unfold replace_text, bind. rewrite read_file_ok, H. simpl.
  rewrite write_file_ok. reflexivity.
Qed.

End OnFile.

(** [replace1] splices the replacement over the first occurrence. *)
Lemma replace1_first s old new i :
  find_nat s old = Some i ->
  replace1 s old new = firstn i s ++ new ++ skipn (i + length old) s.
Proof.
  revert i; induction s as [|x s IH]; intros i; simpl.
  - destruct (startswith [] old) eqn:E; [|discriminate]. intros [= <-]. reflexivity.
  - destruct (startswith (x :: s) old) eqn:E.
    + intros [= <-]. reflexivity.
    + destruct (find_nat s old) as [n|] eqn:F; simpl; [|discriminate].
      intros [= <-]. simpl. rewrite (IH n eq_refl). reflexivity.
Qed.

Lemma replace1_absent s old new : find_nat s old = None -> replace1 s old new = s.
Proof.
  induction s as [|x s IH]; simpl.
  - destruct (startswith [] old); [discriminate | reflexivity].
  - destruct (startswith (x :: s) old); [discriminate|].
    destruct (find_nat s old); simpl; [discriminate|].
    intros _. rewrite IH; reflexivity.
Qed.

(** ** Claims about single helper calls *)

Lemma warns_and_continues_intro step w warning :
  step w = (Ret tt, say w warning) -> warns_and_continues step w warning.
Proof.
  intros H. unfold warns_and_continues, result, after, bind. rewrite H. auto.
Qed.

(** C3: when the marker (or the old text) does not occur and the
    already-applied check does not fire, each helper leaves every file
    unchanged, prints its warning, and the routine goes on with the next
    patch. *)
Theorem absent_marker_warns_and_continues
    (w : world) (f : string) (c marker block : str) :
  files w !! f = Some (File c) ->
  contains c marker = false ->
  already_applied c block = false ->
  warns_and_continues (insert_after f marker block) w (msg_marker_not_found marker)
  /\ warns_and_continues (insert_before f marker block) w (msg_marker_not_found marker)
  /\ warns_and_continues (replace_text f marker block) w (msg_text_not_found f marker).
Proof.
  intros Hf Hm Ha. split; [|split]; apply warns_and_continues_intro.
  - apply (insert_after_absent w f c Hf); assumption.
  - apply (insert_before_absent w f c Hf); assumption.
  - apply (replace_text_absent w f c Hf); assumption.
Qed.

Lemma absent_marker_warns_and_continues_witness :
  let w := World {[ "route.ts" := File (py "const a = 1;\nfoo();\n") ]} [] in
  warns_and_continues (insert_after "route.ts" (py "// marker") (py "bar();\n")) w
    (msg_marker_not_found (py "// marker"))
  /\ warns_and_continues (insert_before "route.ts" (py "// marker") (py "bar();\n")) w
    (msg_marker_not_found (py "// marker"))
  /\ warns_and_continues (replace_text "route.ts" (py "// marker") (py "bar();\n")) w
    (msg_text_not_found "route.ts" (py "// marker")).
Proof.
  intros w.
  apply (absent_marker_warns_and_continues w "route.ts" (py "const a = 1;\nfoo();\n"));
    vm_compute; reflexivity.
Defined.





(** C2, at the input where it fails: the marker sits on the last line of
    a file that does not end with a line break, and [insert_after] raises
    [ValueError], which is not a file I/O error; [insert_before] patches
    the same file. *)
Theorem insert_after_raises_on_unterminated_last_line :
  let w := World {[ "route.ts" := File (py "a();\n// marker") ]} [] in
  insert_after "route.ts" (py "// marker") (py "b();\n") w = (Raise ValueError, w)
  /\ is_io_error ValueError = false
  /\ insert_before "route.ts" (py "// marker") (py "b();\n") w =
       (Ret tt, say (store w "route.ts" (py "a();\nb();\n// marker")) msg_patched).
Proof. vm_compute. auto. Qed.

(** *** replace_text *)

Lemma find_nat_minimal s sub i j :
  find_nat s sub = Some i -> (j < i)%nat -> ~ occurs_at sub s j.
Proof.
  intros F Hj [_ H]. apply find_nat_Some in F as [_ Hlt].
  rewrite (Hlt j Hj) in H. discriminate.
Qed.

(** C5, as the code has it: [replace_text] replaces exactly the first
    occurrence of the old text; when the old text is absent the file is
    left unchanged, and the call prints the already-applied note if the
    first stripped line of the replacement that is neither blank nor a
    [//] comment occurs in the file, and the not-found diagnostic
    otherwise. *)
Theorem replace_text_contract
    (w : world) (f : string) (c old_text new_text : str) :
  files w !! f = Some (File c) ->
  (contains c old_text = true ->
     exists i : nat,
       occurs_at old_text c i
       /\ (forall j, (j < i)%nat -> ~ occurs_at old_text c j)
       /\ replace_text f old_text new_text w =
            (Ret tt,
             say (store w f (firstn i c ++ new_text ++ skipn (i + length old_text) c))
                 msg_patched))
  /\ (contains c old_text = false ->
        (forall l ls, check_lines new_text = l :: ls -> contains c l = true ->
           replace_text f old_text new_text w = (Ret tt, say w (msg_already f)))
        /\ (forall l ls, check_lines new_text = l :: ls -> contains c l = false ->
              replace_text f old_text new_text w =
                (Ret tt, say w (msg_text_not_found f old_text)))
        /\ (check_lines new_text = [] ->
              replace_text f old_text new_text w =
                (Ret tt, say w (msg_text_not_found f old_text)))).
Proof.
  intros Hf. split.
  - intros H. pose proof H as H'. unfold contains in H'.
    destruct (find_nat c old_text) as [i|] eqn:F; [clear H'|discriminate].
    exists i. split; [apply find_nat_Some in F; tauto|].
    split; [intros j Hj; exact (find_nat_minimal _ _ _ _ F Hj)|].
    rewrite (replace_text_patch w f c Hf _ _ H), (replace1_first _ _ _ _ F).
    reflexivity.
  - intros H. repeat split.
    + intros l ls E Hl. apply (replace_text_already w f c Hf); [exact H|].
      unfold already_applied. rewrite E. exact Hl.
    + intros l ls E Hl. apply (replace_text_absent w f c Hf); [exact H|].
      unfold already_applied. rewrite E. exact Hl.
    + intros E. apply (replace_text_absent w f c Hf); [exact H|].
      unfold already_applied. rewrite E. reflexivity.
Qed.

Lemma replace_text_contract_witness :
  let w := World {[ "route.ts" := File (py "a();\nold();\nold();\n") ]} [] in
  replace_text "route.ts" (py "old();") (py "// note\nnew();") w =
  (Ret tt, say (store w "route.ts" (py "a();\n// note\nnew();\nold();\n")) msg_patched).
Proof.
  intros w.
  destruct (replace_text_contract w "route.ts" (py "a();\nold();\nold();\n")
              (py "old();") (py "// note\nnew();") eq_refl) as [H _].
  destruct (H eq_refl) as (i & Hi & Hmin & ->).
  assert (i = 5%nat) as ->.
  { destruct (Nat.lt_trichotomy i 5) as [Hlt|[->|Hgt]]; [|reflexivity|].
    - exfalso. destruct Hi as [_ Hi].
      do 5 (destruct i as [|i]; [vm_compute in Hi; discriminate|]). lia.
    - exfalso. apply (Hmin 5%nat Hgt). split; vm_compute; [lia | reflexivity]. }
  reflexivity.
Defined.

(** C5 as worded fails: the old text is absent and the first line of the
    replacement (a comment) occurs in the file, yet the call prints the
    not-found diagnostic, not the already-applied note. *)
Lemma replace_text_first_line_counterexample :
  let w := World {[ "route.ts" := File (py "// Notify\nfoo();\n") ]} [] in
  let old_text := py "bar();" in
  let new_text := py "// Notify\n  baz();" in
  contains (py "// Notify\nfoo();\n") old_text = false
  /\ contains (py "// Notify\nfoo();\n") (first_line new_text) = true
  /\ replace_text "route.ts" old_text new_text w =
       (Ret tt, say w (msg_text_not_found "route.ts" old_text))
  /\ msg_text_not_found "route.ts" old_text <> msg_already "route.ts".
Proof. vm_compute. repeat split; discriminate. Qed.

(** *** Lines: split, join, insert *)

Lemma split_nonempty (sep : char) s : split sep s <> [].
Proof.
  destruct s as [|x s]; simpl; [discriminate|].
  destruct (x =? sep)%N; [discriminate|]. destruct (split sep s); discriminate.
Qed.

Lemma join_cons (sep : str) (p : str) (ps : list str) :
  ps <> [] -> join sep (p :: ps) = p ++ sep ++ join sep ps.
Proof. destruct ps; [congruence | reflexivity]. Qed.

Lemma join_split (sep : char) s : join [sep] (split sep s) = s.
Proof.
  induction s as [|x s IH]; simpl; [reflexivity|].
  destruct (N.eqb_spec x sep) as [->|Hx].
  - rewrite join_cons by apply split_nonempty. simpl. rewrite IH. reflexivity.
  - pose proof (split_nonempty sep s) as Hne.
    destruct (split sep s) as [|l ls]; [congruence|].
    destruct ls as [|l' ls]; simpl in *; congruence.
Qed.

Lemma split_no_sep (sep : char) s l : l ∈ split sep s -> sep ∉ l.
Proof.
  revert l; induction s as [|x s IH]; intros l; simpl.
  - intros H. apply list_elem_of_singleton in H as ->. apply not_elem_of_nil.
  - destruct (N.eqb_spec x sep) as [->|Hx].
    + intros H. apply elem_of_cons in H as [->|H]; [apply not_elem_of_nil | auto].
    + pose proof (split_nonempty sep s) as Hne.
      destruct (split sep s) as [|l0 ls]; [congruence|].
      intros H. apply elem_of_cons in H as [->|H].
      * apply not_elem_of_cons. split; [congruence|]. apply IH. left.
      * apply IH. right. exact H.
Qed.


Lemma join_elem (sep : str) (parts : list str) (x : str) :
  x ∈ parts -> exists a b, join sep parts = a ++ x ++ b.
Proof.
  induction parts as [|p ps IH]; intros H; [inversion H|].
  destruct ps as [|p' ps].
  - apply list_elem_of_singleton in H as ->. exists [], []. simpl.
    rewrite app_nil_r. reflexivity.
  - rewrite join_cons by discriminate.
    apply elem_of_cons in H as [->|H].
    + exists [], (sep ++ join sep (p' :: ps)). reflexivity.
    + destruct (IH H) as (a & b & E). exists (p ++ sep ++ a), b.
      rewrite E, <- !app_assoc. reflexivity.
Qed.

Lemma line_is_contained s (l : str) : l ∈ split nl s -> contains s l = true.
Proof.
  intros H. apply contains_spec.
  destruct (join_elem [nl] _ _ H) as (a & b & E).
  rewrite join_split in E. eauto.
Qed.









(** ** The whole routine *)

(** C1, at the input where it fails: on a tree whose vote route holds the
    text the fourth patch replaces, both runs of [main] complete, the
    first leaves one threshold block in the vote route and the second
    adds another: the replacement text ends with the replaced text, and
    [replace_text] consults its already-applied check only when the old
    text is gone. *)
Theorem main_twice_differs_from_once :
  result main vote_project = Ret tt
  /\ result main (after main vote_project) = Ret tt
  /\ file_text (after main vote_project) Patch.f4 =
       Some (py "import { NextResponse } from 'next/server';\n"
             ++ Patch.import4 ++ py "\n"
             ++ py "\n"
             ++ py "export async function POST() {\n"
             ++ py "      " ++ Patch.new4 ++ py "\n"
             ++ py "}\n")
  /\ file_text (after main (after main vote_project)) Patch.f4 =
       Some (py "import { NextResponse } from 'next/server';\n"
             ++ Patch.import4 ++ py "\n"
             ++ py "\n"
             ++ py "export async function POST() {\n"
             ++ py "      " ++ replace1 Patch.new4 Patch.old4 Patch.new4 ++ py "\n"
             ++ py "}\n")
  /\ contains Patch.new4 Patch.old4 = true
  /\ file_text (after main (after main vote_project)) Patch.f4
       <> file_text (after main vote_project) Patch.f4
  /\ option_map (fun t => occurrences t (py "const VOTE_THRESHOLD = 5;"))
                (file_text (after main vote_project) Patch.f4) = Some 1%nat
  /\ option_map (fun t => occurrences t (py "const VOTE_THRESHOLD = 5;"))
                (file_text (after main (after main vote_project)) Patch.f4) = Some 2%nat.
Proof.
  assert (exists t1, file_text (after main vote_project) Patch.f4 = Some t1
                     /\ t1 = py "import { NextResponse } from 'next/server';\n"
             ++ Patch.import4 ++ py "\n"
             ++ py "\n"
             ++ py "export async function POST() {\n"
             ++ py "      " ++ Patch.new4 ++ py "\n"
             ++ py "}\n") as (t1 & E1 & D1)
    by (eexists; split; vm_compute; reflexivity).
  assert (exists t2, file_text (after main (after main vote_project)) Patch.f4 = Some t2
                     /\ t2 = py "import { NextResponse } from 'next/server';\n"
             ++ Patch.import4 ++ py "\n"
             ++ py "\n"
             ++ py "export async function POST() {\n"
             ++ py "      " ++ replace1 Patch.new4 Patch.old4 Patch.new4 ++ py "\n"
             ++ py "}\n") as (t2 & E2 & D2)
    by (eexists; split; vm_compute; reflexivity).
  rewrite E1, E2.
  split; [vm_compute; reflexivity|].
  split; [vm_compute; reflexivity|].
  split; [f_equal; exact D1|]. split; [f_equal; exact D2|].
  split; [vm_compute; reflexivity|].
  split; [subst; vm_compute; discriminate|].
  split; subst; vm_compute; reflexivity.
Qed.

(** *** What a computation can depend on and raise *)

Lemma files_only_ret {A} (a : A) : files_only (ret a).
Proof. intros w1 w2 H. auto. Qed.

Lemma files_only_raise {A} (e : exn) : files_only (@raise A e).
Proof. intros w1 w2 H. auto. Qed.

Lemma files_only_print (line : str) : files_only (print line).
Proof. intros w1 w2 H. auto. Qed.

Lemma files_only_read (path : string) : files_only (read_file path).
Proof.
  intros w1 w2 H. unfold result, after, read_file. rewrite H.
  destruct (files w2 !! path) as [[|]|]; auto.
Qed.

Lemma files_only_write (path : string) (content : str) :
  files_only (write_file path content).
Proof.
  intros w1 w2 H. unfold result, after, write_file. rewrite H.
  destruct (files w2 !! path) as [[|]|]; simpl; rewrite ?H; auto.
Qed.

Lemma files_only_index s sub (start : Z) : files_only (index s sub start).
Proof.
  unfold index. destruct (_ =? -1); [apply files_only_raise | apply files_only_ret].
Qed.

Lemma files_only_bind {A B} (c : M A) (k : A -> M B) :
  files_only c -> (forall x : A, files_only (k x)) -> files_only (bind c k).
Proof.
  intros Hc Hk w1 w2 H. destruct (Hc w1 w2 H) as [Hr Hf].
  unfold result, after, bind in *.
  destruct (c w1) as [[a1|e1] u1], (c w2) as [[a2|e2] u2]; simpl in *;
    try discriminate.
  - injection Hr as ->. apply Hk. exact Hf.
  - injection Hr as ->. split; [reflexivity | exact Hf].
Qed.

Lemma no_exit_ret {A} (a : A) : no_exit (ret a).
Proof. intros w. exact I. Qed.

Lemma no_exit_value_error {A} : no_exit (@raise A ValueError).
Proof. intros w. exact I. Qed.

Lemma no_exit_print (line : str) : no_exit (print line).
Proof. intros w. exact I. Qed.

Lemma no_exit_read (path : string) : no_exit (read_file path).
Proof.
  intros w. unfold result, read_file. destruct (files w !! path) as [[|]|]; exact I.
Qed.

Lemma no_exit_write (path : string) (content : str) : no_exit (write_file path content).
Proof.
  intros w. unfold result, write_file. destruct (files w !! path) as [[|]|]; exact I.
Qed.

Lemma no_exit_index s sub (start : Z) : no_exit (index s sub start).
Proof.
  unfold index. destruct (_ =? -1); [apply no_exit_value_error | apply no_exit_ret].
Qed.

Lemma no_exit_bind {A B} (c : M A) (k : A -> M B) :
  no_exit c -> (forall x : A, no_exit (k x)) -> no_exit (bind c k).
Proof.
  intros Hc Hk w. specialize (Hc w). unfold result, bind in *.
  destruct (c w) as [[a|e] u]; simpl in *; [apply Hk | exact Hc].
Qed.

Create HintDb effects.

#[local] Hint Resolve files_only_ret files_only_raise files_only_print files_only_read
  files_only_write files_only_index no_exit_ret no_exit_value_error no_exit_print
  no_exit_read no_exit_write no_exit_index : effects.

(** Walks down a helper's body: binds, branches, primitives. *)
Ltac effects :=
  repeat match goal with
    | |- files_only (bind _ _) => apply files_only_bind; [|intros]
    | |- no_exit (bind _ _) => apply no_exit_bind; [|intros]
    | |- files_only (if ?b then _ else _) => destruct b
    | |- no_exit (if ?b then _ else _) => destruct b
    | |- files_only (let _ := _ in _) => cbv zeta
    | |- no_exit (let _ := _ in _) => cbv zeta
    | |- _ => solve [auto 1 with effects]
    end.

Lemma insert_import_files_only (f : string) (imp : str) : files_only (insert_import f imp).
Proof. unfold insert_import. effects. Qed.

Lemma insert_import_no_exit (f : string) (imp : str) : no_exit (insert_import f imp).
Proof. unfold insert_import. effects. Qed.

Lemma insert_after_files_only (f : string) (m b : str) : files_only (insert_after f m b).
Proof. unfold insert_after. effects. Qed.

Lemma insert_after_no_exit (f : string) (m b : str) : no_exit (insert_after f m b).
Proof. unfold insert_after. effects. Qed.

Lemma insert_before_files_only (f : string) (m b : str) : files_only (insert_before f m b).
Proof. unfold insert_before. effects. Qed.

Lemma insert_before_no_exit (f : string) (m b : str) : no_exit (insert_before f m b).
Proof. unfold insert_before. effects. Qed.

Lemma replace_text_files_only (f : string) (old new : str) :
  files_only (replace_text f old new).
Proof. unfold replace_text. effects. Qed.

Lemma replace_text_no_exit (f : string) (old new : str) : no_exit (replace_text f old new).
Proof. unfold replace_text. effects. Qed.

#[local] Hint Resolve insert_import_files_only insert_import_no_exit
  insert_after_files_only insert_after_no_exit insert_before_files_only
  insert_before_no_exit replace_text_files_only replace_text_no_exit : effects.

Lemma patches_files_only : files_only patches.
Proof.
  unfold patches, step1, step2, step3, step4, step5, step6, step7. effects.
Qed.

Lemma patches_no_exit : no_exit patches.
Proof.
  unfold patches, step1, step2, step3, step4, step5, step6, step7. effects.
Qed.

(** ** What the helpers can raise *)

Lemma only_io_ret {A} (x : A) : only_io (ret x).
Proof. intros w e H. discriminate. Qed.

Lemma only_io_print (line : str) : only_io (print line).
Proof. intros w e H. discriminate. Qed.

Lemma only_io_read (path : string) : only_io (read_file path).
Proof.
  intros w e. unfold result, read_file.
  destruct (files w !! path) as [[|]|]; simpl; intros [= <-]; reflexivity.
Qed.

Lemma only_io_write (path : string) (content : str) : only_io (write_file path content).
Proof.
  intros w e. unfold result, write_file.
  destruct (files w !! path) as [[|]|]; simpl; intros [= <-]; reflexivity.
Qed.

Lemma only_io_bind {A B} (m : M A) (k : A -> M B) :
  only_io m -> (forall x : A, only_io (k x)) -> only_io (bind m k).
Proof.
  intros Hm Hk w e. specialize (Hm w). unfold result, bind in *.
  destruct (m w) as [[x|e'] u]; simpl in *.
  - apply Hk.
  - intros [= <-]. apply Hm. reflexivity.
Qed.

#[local] Hint Resolve only_io_ret only_io_print only_io_read only_io_write : effects.

Ltac only_io :=
  repeat match goal with
    | |- only_io (bind _ _) => apply only_io_bind; [|intros]
    | |- only_io (if ?b then _ else _) => destruct b
    | |- only_io (let _ := _ in _) => cbv zeta
    | |- _ => solve [auto 1 with effects]
    end.

(** Of the four helpers, three raise nothing but file I/O errors. *)
Lemma insert_import_only_io (f : string) (imp : str) : only_io (insert_import f imp).
Proof. unfold insert_import. only_io. Qed.

Lemma insert_before_only_io (f : string) (m b : str) : only_io (insert_before f m b).
Proof. unfold insert_before. only_io. Qed.

Lemma replace_text_only_io (f : string) (old new : str) : only_io (replace_text f old new).
Proof. unfold replace_text. only_io. Qed.


(** *** The prerequisite checks and the exit status *)

Lemma check_prereqs_ok w :
  prereqs_ok w = true ->
  check_prereqs w = (Ret tt, say w (py "✅ Prerequisites OK\n")).
Proof.
  unfold prereqs_ok, check_prereqs, bind, path_exists, path_isdir, ret.
  destruct (files w !! "package.json"); [|discriminate].
  destruct (files w !! "src/app/api") as [[|]|]; try discriminate.
  simpl. destruct (files w !! "src/lib/node-red.ts"); [|discriminate].
  reflexivity.
Qed.

Lemma check_prereqs_fail w :
  prereqs_ok w = false ->
  result check_prereqs w = Raise (SystemExit 1)
  /\ files (after check_prereqs w) = files w.
Proof.
  unfold prereqs_ok, check_prereqs, result, after, bind, path_exists, path_isdir, ret.
  destruct (files w !! "package.json"); [|auto].
  destruct (files w !! "src/app/api") as [[|]|]; simpl; auto.
  destruct (files w !! "src/lib/node-red.ts"); simpl; [discriminate | auto].
Qed.

Lemma bind_print {B} (line : str) (k : unit -> M B) w :
  bind (print line) k w = k tt (say w line).
Proof. reflexivity. Qed.

(** C8, as the code has it: the exit status is 1 when a prerequisite
    check fails (and then no file is touched); when the checks pass it is
    0 if the seven patch steps run to their end and 1 if one of them
    raises. *)
Theorem exit_status_of_main (w : world) :
  exit_status (result main w) =
    (if prereqs_ok w
     then match result patches w with Ret _ => 0 | Raise _ => 1 end
     else 1)
  /\ (prereqs_ok w = false -> files (after main w) = files w).
Proof.
  unfold main, result, after. rewrite !bind_print.
  set (w1 := say _ _). assert (files w1 = files w) as Hw1 by reflexivity.
  assert (prereqs_ok w1 = prereqs_ok w) as Hp
    by (unfold prereqs_ok; rewrite Hw1; reflexivity).
  clearbody w1. destruct (prereqs_ok w) eqn:P.
  - split; [|discriminate]. unfold bind at 1. rewrite (check_prereqs_ok w1 Hp).
    set (w2 := say w1 _). assert (files w2 = files w) as Hw2 by exact Hw1.
    clearbody w2.
    destruct (patches_files_only w2 w Hw2) as [Hr _].
    pose proof (patches_no_exit w2) as Hne.
    unfold result in *. unfold bind at 1.
    destruct (patches w2) as [[[]|e] u]; cbn [fst] in *; rewrite <- Hr.
    + reflexivity.
    + destruct e; cbn [fst exit_status]; [contradiction | reflexivity..].
  - destruct (check_prereqs_fail w1 Hp) as [Hr Hf]. unfold result, after in Hr, Hf.
    destruct (check_prereqs w1) as [[[]|e] u] eqn:C; cbn [fst snd] in Hr, Hf;
      [discriminate|].
    injection Hr as ->.
    split; [|intros _]; unfold bind at 1; rewrite C; cbn [fst snd exit_status];
      [reflexivity|].
    rewrite Hf. exact Hw1.
Qed.

Lemma exit_status_of_main_witness :
  let w := World {[ "package.json" := File (py "{}\n") ]} [] in
  exit_status (result main w) = 1 /\ files (after main w) = files w.
Proof.
  intros w. destruct (exit_status_of_main w) as [H1 H2].
  split; [rewrite H1; reflexivity | apply H2; reflexivity].
Defined.

(** C8 as worded fails: every prerequisite check passes, the first target
    file is missing, and the status is 1, not 0. *)
Lemma exit_status_counterexample :
  let w := World (<["package.json" := File (py "{}\n")]>
                 (<["src/app/api" := Dir]>
                 (<["src/lib/node-red.ts" := File (py "export {};\n")]> ∅))) [] in
  prereqs_ok w = true
  /\ result main w = Raise FileNotFoundError
  /\ exit_status (result main w) = 1
  /\ exit_status (result main w) <> 0.
Proof. vm_compute. repeat split; discriminate. Qed.

(** ** Repeated calls *)


Lemma contains_app_r s (x : str) sub :
  contains s sub = true -> contains (x ++ s) sub = true.
Proof.
  rewrite !contains_spec. intros (u & v & ->). exists (x ++ u), v.
  rewrite <- app_assoc. reflexivity.
Qed.

Lemma contains_app_l s (x : str) sub :
  contains s sub = true -> contains (s ++ x) sub = true.
Proof.
  rewrite !contains_spec. intros (u & v & ->). exists u, (v ++ x).
  rewrite <- !app_assoc. reflexivity.
Qed.









(** *** The marker and its line break survive an [insert_after] *)











(** ** Counting occurrences *)

Lemma occurrences_zero s sub : occurrences s sub = 0%nat <-> contains s sub = false.
Proof.
  rewrite contains_find_nat. induction s as [|x s IH]; simpl.
  - destruct (startswith [] sub); split; intros; try discriminate; reflexivity.
  - destruct (startswith (x :: s) sub).
    + split; intros; discriminate.
    + simpl. rewrite IH. destruct (find_nat s sub); simpl; split; congruence.
Qed.



Section OneLine.

(** A search text that has no line break and is not empty lies within
    one line wherever it occurs. *)
Context (x : str).
Hypothesis x_line : nl ∉ x.
Hypothesis x_nonempty : x <> [].

Lemma startswith_before_nl (u v : str) :
  startswith (u ++ nl :: v) x = startswith u x.
Proof.
  clear x_nonempty. revert u; induction x as [|z x' IH]; intros u; [reflexivity|].
  apply not_elem_of_cons in x_line as [Hz Hx'].
  destruct u as [|y u]; cbn [app startswith].
  - destruct (N.eqb_spec nl z) as [E|_]; [congruence | reflexivity].
  - rewrite (IH Hx'). reflexivity.
Qed.

Lemma occurrences_nil : occurrences [] x = 0%nat.
Proof. destruct x; [congruence | reflexivity]. Qed.

Lemma occurrences_across_nl (u v : str) :
  occurrences (u ++ nl :: v) x = (occurrences u x + occurrences v x)%nat.
Proof.
  induction u as [|y u IH].
  - rewrite occurrences_nil. cbn [app occurrences].
    pose proof (startswith_before_nl [] v) as E. cbn [app] in E. rewrite E.
    destruct x; [congruence | reflexivity].
  - cbn [app occurrences]. rewrite IH.
    pose proof (startswith_before_nl (y :: u) v) as E. cbn [app] in E. rewrite E.
    lia.
Qed.

Lemma per_line_app (ls ls' : list str) :
  per_line x (ls ++ ls') = (per_line x ls + per_line x ls')%nat.
Proof. induction ls as [|l ls IH]; simpl; [reflexivity | rewrite IH; lia]. Qed.

Lemma occurrences_join (lines : list str) :
  occurrences (join [nl] lines) x = per_line x lines.
Proof.
  induction lines as [|l ls IH]; [apply occurrences_nil|].
  destruct ls as [|l' ls].
  - simpl. lia.
  - rewrite join_cons by discriminate. cbn [app].
    rewrite occurrences_across_nl, IH. reflexivity.
Qed.

Lemma occurrences_lines s : occurrences s x = per_line x (split nl s).
Proof. rewrite <- occurrences_join, join_split. reflexivity. Qed.

Lemma per_line_insert (lines : list str) (i : Z) (l : str) :
  per_line x (list_insert lines i l) = (per_line x lines + occurrences l x)%nat.
Proof.
  unfold list_insert. set (k := Z.to_nat _).
  rewrite per_line_app. cbn [per_line fold_right]. fold (per_line x (skipn k lines)).
  rewrite <- (take_drop k lines) at 3. rewrite per_line_app. lia.
Qed.

(** A block that begins and ends with a line break, put in at the start
    of a line, adds its own occurrences and no others. *)
Lemma occurrences_splice (p s mid : str) :
  p = [] \/ (exists p', p = p' ++ [nl]) ->
  occurrences (p ++ (nl :: mid ++ [nl]) ++ s) x =
    (occurrences (p ++ s) x + occurrences (nl :: mid ++ [nl]) x)%nat.
Proof.
  intros Hp.
  assert (occurrences (nl :: mid ++ [nl]) x = occurrences mid x) as ->.
  { pose proof (occurrences_across_nl [] (mid ++ [nl])) as E. cbn [app] in E.
    rewrite E, occurrences_nil, (occurrences_across_nl mid []), occurrences_nil. lia. }
  assert (occurrences ((nl :: mid ++ [nl]) ++ s) x
          = (occurrences mid x + occurrences s x)%nat) as Hblock.
  { pose proof (occurrences_across_nl [] ((mid ++ [nl]) ++ s)) as E. cbn [app] in E.
    cbn [app]. rewrite E, occurrences_nil.
    rewrite <- app_assoc. cbn [app]. rewrite occurrences_across_nl. lia. }
  destruct Hp as [->|[p' ->]].
  - cbn [app] in *. rewrite Hblock. lia.
  - rewrite <- !app_assoc. cbn [app].
    rewrite !occurrences_across_nl. cbn [app] in Hblock. rewrite Hblock. lia.
Qed.

End OneLine.

(** ** One import and one block per file *)

Lemma store_same w (f : string) (t : str) :
  files w !! f = Some (File t) -> store w f t = w.
Proof.
  intros H. unfold store. rewrite insert_id by exact H. destruct w; reflexivity.
Qed.

Lemma insert_import_run w (f : string) (t imp : str) :
  files w !! f = Some (File t) ->
  insert_import f imp w = (Ret tt, store w f (import_inserted t imp)).
Proof.
  intros Hf. unfold import_inserted. destruct (contains t imp) eqn:E.
  - rewrite (insert_import_present w f t Hf _ E), (store_same w f t Hf). reflexivity.
  - apply (insert_import_absent w f t Hf _ E).
Qed.

Lemma import_inserted_occurrences (x t imp : str) :
  nl ∉ x -> x <> [] -> contains t imp = false ->
  occurrences (import_inserted t imp) x = (occurrences t x + occurrences imp x)%nat.
Proof.
  intros Hx Hne E. unfold import_inserted. rewrite E. cbv zeta.
  rewrite (occurrences_join x Hx Hne).
  destruct (_ >=? 0); rewrite per_line_insert, <- (occurrences_lines x Hx Hne);
    reflexivity.
Qed.

(** A marker without line break that occurs in the file still occurs
    once the import line is in place. *)
Lemma marker_survives_import (t imp marker : str) :
  nl ∉ marker -> marker <> [] ->
  contains t marker = true -> contains (import_inserted t imp) marker = true.
Proof.
  intros Hnl Hne Hm. destruct (contains t imp) eqn:E.
  - unfold import_inserted. rewrite E. exact Hm.
  - destruct (contains (import_inserted t imp) marker) eqn:C; [reflexivity|].
    apply occurrences_zero in C.
    rewrite (import_inserted_occurrences marker t imp Hnl Hne E) in C.
    assert (occurrences t marker = 0%nat) as Z by lia.
    apply occurrences_zero in Z. congruence.
Qed.

Lemma line_start_prefix (t : str) i :
  (i <= length t)%nat ->
  firstn (line_start t i) t = [] \/ exists p', firstn (line_start t i) t = p' ++ [nl].
Proof.
  intros Hi. destruct (line_start_spec t i Hi) as (u & l & E & Hlen & _ & Hu).
  assert (firstn (line_start t i) t = u) as ->; [|exact Hu].
  assert (length (firstn i t) = length (u ++ l)) as HL by (rewrite E; reflexivity).
  rewrite length_take, length_app in HL.
  assert (firstn (length u) (firstn i t) = u) as H
    by (rewrite E; apply take_app_length).
  rewrite take_take in H.
  replace (length u `min` i)%nat with (length u) in H by lia.
  rewrite <- Hlen. exact H.
Qed.

Lemma line_end_prefix (t : str) i k :
  (i <= length t)%nat -> line_end t i = Some k ->
  exists p', firstn k t = p' ++ [nl].
Proof.
  intros Hi L. apply line_end_spec in L as (l & r & E & -> & _).
  exists (firstn i t ++ l).
  rewrite <- (take_drop i t) at 1. rewrite E.
  rewrite take_app_ge by (rewrite length_take; lia).
  rewrite length_take.
  replace (i + length l + 1 - i `min` length t)%nat with (length l + 1)%nat by lia.
  rewrite take_app_ge by lia.
  replace (length l + 1 - length l)%nat with 1%nat by lia.
  rewrite <- app_assoc. reflexivity.
Qed.

Section ImportAndBlock.

(** One patch step: an import line, a marker and a block whose first
    checkable line is [chk]. *)
Context (f : string) (imp marker block chk mid : str) (more : list str).
Hypothesis imp_line : nl ∉ imp.
Hypothesis imp_nonempty : imp <> [].
Hypothesis chk_line : nl ∉ chk.
Hypothesis chk_nonempty : chk <> [].
Hypothesis block_framed : block = nl :: mid ++ [nl].
Hypothesis block_check : check_lines block = chk :: more.
Hypothesis chk_once : occurrences block chk = 1%nat.
Hypothesis imp_not_in_block : occurrences block imp = 0%nat.
Hypothesis chk_not_in_imp : occurrences imp chk = 0%nat.






End ImportAndBlock.

(** ** Steps on different files do not disturb each other *)

Lemma touches_only_ret {A} (f : string) (x : A) : touches_only f (ret x).
Proof. intros w g _. reflexivity. Qed.

Lemma touches_only_raise {A} (f : string) (e : exn) : touches_only f (@raise A e).
Proof. intros w g _. reflexivity. Qed.

Lemma touches_only_print (f : string) (line : str) : touches_only f (print line).
Proof. intros w g _. reflexivity. Qed.

Lemma touches_only_read (f path : string) : touches_only f (read_file path).
Proof.
  intros w g _. unfold after, read_file.
  destruct (files w !! path) as [[|]|]; reflexivity.
Qed.

Lemma touches_only_write (f : string) (content : str) :
  touches_only f (write_file f content).
Proof.
  intros w g Hg. unfold after, write_file.
  destruct (files w !! f) as [[|]|]; simpl; rewrite ?lookup_insert_ne by congruence;
    reflexivity.
Qed.

Lemma touches_only_index (f : string) s sub (start : Z) :
  touches_only f (index s sub start).
Proof.
  unfold index. destruct (_ =? -1); [apply touches_only_raise | apply touches_only_ret].
Qed.

Lemma touches_only_bind {A B} (f : string) (c : M A) (k : A -> M B) :
  touches_only f c -> (forall x : A, touches_only f (k x)) -> touches_only f (bind c k).
Proof.
  intros Hc Hk w g Hg. specialize (Hc w g Hg). unfold after, bind in *.
  destruct (c w) as [[x|e] u]; simpl in *; [|exact Hc].
  rewrite <- Hc. apply (Hk x u g Hg).
Qed.

#[local] Hint Resolve touches_only_ret touches_only_raise touches_only_print
  touches_only_read touches_only_write touches_only_index : effects.

Ltac frame :=
  repeat match goal with
    | |- touches_only _ (bind _ _) => apply touches_only_bind; [|intros]
    | |- touches_only _ (if ?b then _ else _) => destruct b
    | |- touches_only _ (let _ := _ in _) => cbv zeta
    | |- _ => solve [auto 1 with effects]
    end.

Lemma insert_import_touches (f : string) (imp : str) :
  touches_only f (insert_import f imp).
Proof. unfold insert_import. frame. Qed.

Lemma insert_after_touches (f : string) (m b : str) :
  touches_only f (insert_after f m b).
Proof. unfold insert_after. frame. Qed.

Lemma insert_before_touches (f : string) (m b : str) :
  touches_only f (insert_before f m b).
Proof. unfold insert_before. frame. Qed.

Lemma replace_text_touches (f : string) (old new : str) :
  touches_only f (replace_text f old new).
Proof. unfold replace_text. frame. Qed.

#[local] Hint Resolve insert_import_touches insert_after_touches insert_before_touches
  replace_text_touches : effects.

Lemma run_all_untouched (l : list (string * M unit)) (f : string) :
  Forall (fun q : string * M unit => touches_only (fst q) (snd q)) l ->
  f ∉ map fst l ->
  forall w, files (after (run_all (map snd l)) w) !! f = files w !! f.
Proof.
  induction 1 as [|[f0 s0] l Hs0 _ IH]; intros Hf w; [reflexivity|].
  cbn [map fst snd] in *. apply not_elem_of_cons in Hf as [Hne Hf].
  specialize (Hs0 w f Hne). cbn [run_all fold_right]. fold (run_all (map snd l)).
  unfold after, bind in *. destruct (s0 w) as [[[]|e] u]; cbn [snd] in *;
    [|exact Hs0].
  rewrite <- Hs0. apply (IH Hf u).
Qed.

Lemma run_all_file (l : list (string * M unit)) :
  Forall (fun q : string * M unit => touches_only (fst q) (snd q)) l ->
  NoDup (map fst l) ->
  forall w, result (run_all (map snd l)) w = Ret tt ->
  forall (f : string) (s : M unit), (f, s) ∈ l ->
    exists W, files W !! f = files w !! f
              /\ result s W = Ret tt
              /\ files (after (run_all (map snd l)) w) !! f = files (after s W) !! f.
Proof.
  induction 1 as [|[f0 s0] l Hs0 Hl IH]; intros Hnd w Hr f s Hin; [inversion Hin|].
  cbn [map fst snd] in *. apply NoDup_cons in Hnd as [Hf0 Hnd].
  cbn [run_all fold_right] in *. fold (run_all (map snd l)) in *.
  unfold result, after, bind in Hr |- *.
  destruct (s0 w) as [[[]|e] u] eqn:E0; cbn [fst snd] in *; [|discriminate].
  apply elem_of_cons in Hin as [[= -> ->]|Hin].
  - exists w. unfold result, after. rewrite E0. repeat split.
    apply (run_all_untouched l f0 Hl Hf0 u).
  - assert (f <> f0) as Hne.
    { intros ->. apply Hf0. apply list_elem_of_fmap. exists (f0, s). auto. }
    destruct (IH Hnd u Hr f s Hin) as (W & HW & HR & HA).
    exists W. repeat split; [|exact HR|exact HA].
    rewrite HW. pose proof (Hs0 w f Hne) as H0. unfold after in H0.
    rewrite E0 in H0. exact H0.
Qed.

Lemma patches_run_all w : patches w = run_all (map snd steps) w.
Proof.
  unfold patches, steps. cbn [map snd run_all fold_right]. unfold bind.
  destruct (step1 w) as [[[]|?] w1]; [|reflexivity].
  destruct (step2 w1) as [[[]|?] w2]; [|reflexivity].
  destruct (step3 w2) as [[[]|?] w3]; [|reflexivity].
  destruct (step4 w3) as [[[]|?] w4]; [|reflexivity].
  destruct (step5 w4) as [[[]|?] w5]; [|reflexivity].
  destruct (step6 w5) as [[[]|?] w6]; [|reflexivity].
  destruct (step7 w6) as [[[]|?] w7]; reflexivity.
Qed.

Lemma steps_touch : Forall (fun q : string * M unit => touches_only (fst q) (snd q)) steps.
Proof.
  unfold steps. repeat constructor; cbn [fst snd];
    unfold step1, step2, step3, step4, step5, step6, step7; frame.
Qed.

Lemma steps_distinct : NoDup (map fst steps).
Proof. apply (bool_decide_unpack _). vm_compute. reflexivity. Qed.

Lemma check_prereqs_files w : files (after check_prereqs w) = files w.
Proof.
  destruct (prereqs_ok w) eqn:P.
  - unfold after. rewrite (check_prereqs_ok w P). reflexivity.
  - apply (check_prereqs_fail w P).
Qed.

Lemma bind_Ret {A B} (m : M A) (k : A -> M B) w (x : A) w' :
  m w = (Ret x, w') -> bind m k w = k x w'.
Proof. intros H. unfold bind. rewrite H. reflexivity. Qed.

Lemma bind_Raise {A B} (m : M A) (k : A -> M B) w (e : exn) w' :
  m w = (Raise e, w') -> bind m k w = (Raise e, w').
Proof. intros H. unfold bind. rewrite H. reflexivity. Qed.

Lemma main_patches w :
  result main w = Ret tt ->
  exists w', files w' = files w
             /\ result patches w' = Ret tt
             /\ files (after main w) = files (after patches w').
Proof.
  unfold main, result, after. rewrite !bind_print.
  set (w1 := say _ _). assert (files w1 = files w) as Hw1 by reflexivity.
  clearbody w1. intros Hr.
  pose proof (check_prereqs_files w1) as Hc. unfold after in Hc.
  destruct (check_prereqs w1) as [[[]|e] w2] eqn:C; cbn [snd] in Hc.
  - rewrite (bind_Ret _ _ _ _ _ C) in Hr |- *.
    destruct (patches w2) as [[[]|e] u] eqn:E.
    + rewrite (bind_Ret _ _ _ _ _ E) in Hr |- *.
      exists w2. rewrite E. repeat split. congruence.
    + rewrite (bind_Raise _ _ _ _ _ E) in Hr. discriminate.
  - rewrite (bind_Raise _ _ _ _ _ C) in Hr. discriminate.
Qed.

(** What [main] leaves in the file of one step is what that step leaves
    there, run on a world whose file is the one [main] started with. *)
Lemma main_file w (f : string) (s : M unit) :
  result main w = Ret tt -> (f, s) ∈ steps ->
  exists W, files W !! f = files w !! f
            /\ result s W = Ret tt
            /\ files (after main w) !! f = files (after s W) !! f.
Proof.
  intros Hr Hin. destruct (main_patches w Hr) as (w' & Hw' & Hp & Hm).
  assert (result (run_all (map snd steps)) w' = Ret tt) as Hp'
    by (unfold result in *; rewrite <- patches_run_all; exact Hp).
  destruct (run_all_file steps steps_touch steps_distinct w' Hp' f s Hin)
    as (W & HW & HR & HA).
  exists W. split; [rewrite HW, Hw'; reflexivity|]. split; [exact HR|].
  rewrite Hm. unfold after in *. rewrite patches_run_all. exact HA.
Qed.

Lemma file_text_Some w (f : string) (t : str) :
  file_text w f = Some t <-> files w !! f = Some (File t).
Proof.
  unfold file_text. destruct (files w !! f) as [[|]|]; split; congruence.
Qed.

(** Membership of the [n]-th pair of a list, by position. *)
Ltac nth_member n :=
  match n with
  | O => apply list_elem_of_here
  | S ?m => apply list_elem_of_further; nth_member m
  end.

(** Side conditions on the literal texts of a patch. *)
Ltac literal :=
  match goal with
  | |- _ ∉ _ => apply find_nat_char_None; vm_compute; reflexivity
  | |- _ <> [] => vm_compute; discriminate
  | |- _ = _ => vm_compute; reflexivity
  end.





(** ** Helpers that do recognise their own patch *)

Lemma contains_trans (s u v : str) :
  contains s u = true -> contains u v = true -> contains s v = true.
Proof.
  rewrite !contains_spec. intros (a1 & b1 & ->) (a2 & b2 & ->).
  exists (a1 ++ a2), (b2 ++ b1). rewrite <- !app_assoc. reflexivity.
Qed.

Lemma lstrip_suffix s : exists u, s = u ++ lstrip s.
Proof.
  induction s as [|x s [u IH]]; simpl.
  - exists []. reflexivity.
  - destruct (isspace x).
    + exists (x :: u). simpl. rewrite <- IH. reflexivity.
    + exists []. reflexivity.
Qed.

Lemma strip_contained s : contains s (strip s) = true.
Proof.
  apply contains_spec. unfold strip, rstrip.
  destruct (lstrip_suffix s) as [u Hu].
  destruct (lstrip_suffix (rev (lstrip s))) as [v Hv].
  exists u, (rev v). rewrite Hu at 1. f_equal.
  rewrite <- rev_app_distr, <- Hv, rev_involutive. reflexivity.
Qed.

Lemma check_line_in_block (block chk : str) :
  chk ∈ check_lines block -> contains block chk = true.
Proof.
  unfold check_lines. intros H.
  apply list_elem_of_In, in_map_iff in H as (l & <- & Hl).
  apply filter_In in Hl as [Hl _]. apply list_elem_of_In in Hl.
  apply (contains_trans _ (strip block)); [apply strip_contained|].
  apply (contains_trans _ l); [apply line_is_contained; exact Hl|].
  apply strip_contained.
Qed.

Lemma applied_after_splice (t block : str) k :
  check_lines block <> [] -> already_applied (splice t block k) block = true.
Proof.
  intros Hne. unfold already_applied.
  destruct (check_lines block) as [|chk more] eqn:E; [congruence|].
  unfold splice. apply contains_app_r, contains_app_l.
  apply check_line_in_block. rewrite E. left.
Qed.



Lemma import_inserted_contains (t imp : str) :
  contains (import_inserted t imp) imp = true.
Proof.
  unfold import_inserted. destruct (contains t imp) eqn:E; [exact E|].
  cbv zeta. apply contains_spec, join_elem.
  destruct (_ >=? 0); unfold list_insert; apply elem_of_app; right; left.
Qed.


(** ** Every way a helper can end *)

Lemma read_file_missing w (f : string) :
  files w !! f = None -> read_file f w = (Raise FileNotFoundError, w).
Proof. intros H. unfold read_file. rewrite H. reflexivity. Qed.

Lemma read_file_dir w (f : string) :
  files w !! f = Some Dir -> read_file f w = (Raise IsADirectoryError, w).
Proof. intros H. unfold read_file. rewrite H. reflexivity. Qed.

Lemma insert_import_ends w (f : string) (imp : str) :
  ends_by_kind (insert_import f imp) w f
    (fun t => insert_import f imp w = (Ret tt, store w f (import_inserted t imp))).
Proof.
  unfold ends_by_kind. destruct (files w !! f) as [[t|]|] eqn:Hf.
  - apply insert_import_run. exact Hf.
  - unfold insert_import. apply bind_Raise, read_file_dir, Hf.
  - unfold insert_import. apply bind_Raise, read_file_missing, Hf.
Qed.

Lemma insert_before_ends w (f : string) (m b : str) :
  ends_by_kind (insert_before f m b) w f
    (fun t =>
       insert_before f m b w = (Ret tt, say w (msg_already f))
       \/ insert_before f m b w = (Ret tt, say w (msg_marker_not_found m))
       \/ exists k : nat,
            (k <= length t)%nat
            /\ insert_before f m b w = (Ret tt, say (store w f (splice t b k)) msg_patched)).
Proof.
  unfold ends_by_kind. destruct (files w !! f) as [[t|]|] eqn:Hf.
  - destruct (already_applied t b) eqn:Ha.
    { left. apply (insert_before_already w f t Hf m b Ha). }
    destruct (find_nat t m) as [i|] eqn:F.
    + right; right. exists (line_start t i). split.
      * pose proof (line_start_le t i). apply find_nat_bound in F. lia.
      * apply (insert_before_patch w f t Hf m b i Ha F).
    + right; left.
      apply (insert_before_absent w f t Hf m b Ha (proj2 (contains_find_nat _ _) F)).
  - unfold insert_before. apply bind_Raise, read_file_dir, Hf.
  - unfold insert_before. apply bind_Raise, read_file_missing, Hf.
Qed.

Lemma insert_after_ends w (f : string) (m b : str) :
  ends_by_kind (insert_after f m b) w f
    (fun t =>
       insert_after f m b w = (Ret tt, say w (msg_already f))
       \/ insert_after f m b w = (Ret tt, say w (msg_marker_not_found m))
       \/ insert_after f m b w = (Raise ValueError, w)
       \/ exists k : nat,
            (k <= length t)%nat
            /\ insert_after f m b w = (Ret tt, say (store w f (splice t b k)) msg_patched)).
Proof.
  unfold ends_by_kind. destruct (files w !! f) as [[t|]|] eqn:Hf.
  - destruct (already_applied t b) eqn:Ha.
    { left. apply (insert_after_already w f t Hf m b Ha). }
    destruct (find_nat t m) as [i|] eqn:F.
    + destruct (line_end t i) as [k|] eqn:L.
      * right; right; right. exists k. split.
        -- apply find_nat_bound in F.
           apply (line_end_bound t i k); [lia | exact L].
        -- apply (insert_after_patch w f t Hf m b i k Ha F L).
      * right; right; left. apply (insert_after_raises w f t Hf m b i Ha F L).
    + right; left.
      apply (insert_after_absent w f t Hf m b Ha (proj2 (contains_find_nat _ _) F)).
  - unfold insert_after. apply bind_Raise, read_file_dir, Hf.
  - unfold insert_after. apply bind_Raise, read_file_missing, Hf.
Qed.

Lemma replace_text_ends w (f : string) (old new : str) :
  ends_by_kind (replace_text f old new) w f
    (fun t =>
       replace_text f old new w = (Ret tt, say w (msg_already f))
       \/ replace_text f old new w = (Ret tt, say w (msg_text_not_found f old))
       \/ replace_text f old new w =
            (Ret tt, say (store w f (replace1 t old new)) msg_patched)).
Proof.
  unfold ends_by_kind. destruct (files w !! f) as [[t|]|] eqn:Hf.
  - destruct (contains t old) eqn:Ho.
    { right; right. apply (replace_text_patch w f t Hf old new Ho). }
    destruct (already_applied t new) eqn:Ha.
    + left. apply (replace_text_already w f t Hf old new Ho Ha).
    + right; left. apply (replace_text_absent w f t Hf old new Ho Ha).
  - unfold replace_text. apply bind_Raise, read_file_dir, Hf.
  - unfold replace_text. apply bind_Raise, read_file_missing, Hf.
Qed.

(** ** Further properties of the helpers *)
















(** X7: called on a directory, each of the four helpers raises
    [IsADirectoryError] and leaves the files and the output as they
    were. *)
Theorem directory_raises (w : world) (f : string) (x y : str) :
  files w !! f = Some Dir ->
  insert_import f x w = (Raise IsADirectoryError, w)
  /\ insert_before f x y w = (Raise IsADirectoryError, w)
  /\ insert_after f x y w = (Raise IsADirectoryError, w)
  /\ replace_text f x y w = (Raise IsADirectoryError, w).
Proof.
  intros Hf.
  pose proof (insert_import_ends w f x) as H1.
  pose proof (insert_before_ends w f x y) as H2.
  pose proof (insert_after_ends w f x y) as H3.
  pose proof (replace_text_ends w f x y) as H4.
  unfold ends_by_kind in *. rewrite Hf in *. auto.
Qed.

Lemma directory_raises_witness :
  let w := World {[ "src" := Dir ]} [] in
  insert_import "src" (py "import x;") w = (Raise IsADirectoryError, w)
  /\ insert_before "src" (py "import x;") (py "y();") w = (Raise IsADirectoryError, w)
  /\ insert_after "src" (py "import x;") (py "y();") w = (Raise IsADirectoryError, w)
  /\ replace_text "src" (py "import x;") (py "y();") w = (Raise IsADirectoryError, w).
Proof.
  intros w. apply (directory_raises w "src"). reflexivity.
Defined.



(** X10: a helper changes no file other than the one it is called on,
    however it ends. *)
Theorem helpers_touch_their_file_only (w : world) (f g : string) (x y : str) :
  g <> f ->
  files (after (insert_import f x) w) !! g = files w !! g
  /\ files (after (insert_before f x y) w) !! g = files w !! g
  /\ files (after (insert_after f x y) w) !! g = files w !! g
  /\ files (after (replace_text f x y) w) !! g = files w !! g.
Proof.
  intros Hg. repeat split.
  - apply insert_import_touches, Hg.
  - apply insert_before_touches, Hg.
  - apply insert_after_touches, Hg.
  - apply replace_text_touches, Hg.
Qed.

Lemma helpers_touch_their_file_only_witness :
  let w := World {[ "a.ts" := File (py "x\n"); "b.ts" := File (py "x\n") ]} [] in
  files (after (insert_import "a.ts" (py "x")) w) !! "b.ts" = files w !! "b.ts"
  /\ files (after (insert_before "a.ts" (py "x") (py "y();\n")) w) !! "b.ts" = files w !! "b.ts"
  /\ files (after (insert_after "a.ts" (py "x") (py "y();\n")) w) !! "b.ts" = files w !! "b.ts"
  /\ files (after (replace_text "a.ts" (py "x") (py "y();\n")) w) !! "b.ts" = files w !! "b.ts".
Proof.
  intros w. apply (helpers_touch_their_file_only w "a.ts" "b.ts"). discriminate.
Defined.

(** X11: [insert_import] never prints, however it ends. *)
Theorem insert_import_is_silent (w : world) (f : string) (imp : str) :
  stdout (after (insert_import f imp) w) = stdout w.
Proof.
  pose proof (insert_import_ends w f imp) as H. unfold ends_by_kind, after in *.
  destruct (files w !! f) as [[t|]|]; rewrite H; reflexivity.
Qed.

(** X12: a call of [insert_before], [insert_after] or [replace_text] that
    returns has printed exactly one line, and when it changed a file that
    line is the Patched one. *)
Theorem one_line_per_call (w : world) (f : string) (x y : str) :
  (result (insert_before f x y) w = Ret tt ->
   exists line : str,
     stdout (after (insert_before f x y) w) = stdout w ++ [line]
     /\ (files (after (insert_before f x y) w) <> files w -> line = msg_patched))
  /\ (result (insert_after f x y) w = Ret tt ->
      exists line : str,
        stdout (after (insert_after f x y) w) = stdout w ++ [line]
        /\ (files (after (insert_after f x y) w) <> files w -> line = msg_patched))
  /\ (result (replace_text f x y) w = Ret tt ->
      exists line : str,
        stdout (after (replace_text f x y) w) = stdout w ++ [line]
        /\ (files (after (replace_text f x y) w) <> files w -> line = msg_patched)).
Proof.
  pose proof (insert_before_ends w f x y) as H2.
  pose proof (insert_after_ends w f x y) as H3.
  pose proof (replace_text_ends w f x y) as H4.
  unfold ends_by_kind, result, after in *.
  destruct (files w !! f) as [[t|]|];
    [|rewrite H2, H3, H4; repeat split; discriminate..].
  split; [|split].
  - destruct H2 as [H|[H|(k & _ & H)]]; rewrite H; intros _; eexists;
      (split; [reflexivity|]); cbn [snd say store files]; congruence.
  - destruct H3 as [H|[H|[H|(k & _ & H)]]]; rewrite H; [| |discriminate|];
      intros _; eexists; (split; [reflexivity|]); cbn [snd say store files]; congruence.
  - destruct H4 as [H|[H|H]]; rewrite H; intros _; eexists;
      (split; [reflexivity|]); cbn [snd say store files]; congruence.
Qed.

(** ** The prerequisite checks, and what [main] may touch *)

(** X13: [check_prereqs] touches no file and prints exactly one line. It
    returns exactly when [package.json] exists (as a file or a
    directory), [src/app/api] is a directory and [src/lib/node-red.ts]
    exists; otherwise it leaves through [sys.exit(1)], and the message
    about [node-red.ts] is printed only when the first check passed. *)
Theorem check_prereqs_report (w : world) :
  files (after check_prereqs w) = files w
  /\ (exists line : str, stdout (after check_prereqs w) = stdout w ++ [line])
  /\ (result check_prereqs w = Ret tt <->
      is_Some (files w !! "package.json")
      /\ files w !! "src/app/api" = Some Dir
      /\ is_Some (files w !! "src/lib/node-red.ts"))
  /\ (result check_prereqs w = Ret tt \/ result check_prereqs w = Raise (SystemExit 1))
  /\ (stdout (after check_prereqs w)
        = stdout w ++ [py "❌ src/lib/node-red.ts not found. Copy it first."] ->
      is_Some (files w !! "package.json")
      /\ files w !! "src/app/api" = Some Dir
      /\ files w !! "src/lib/node-red.ts" = None).
Proof.
  unfold check_prereqs, result, after, bind, path_exists, path_isdir, ret, print, raise.
  destruct (files w !! "package.json") as [n1|]; cbn [negb orb fst snd files stdout];
    destruct (files w !! "src/app/api") as [[t2|]|]; cbn [negb orb fst snd files stdout];
    destruct (files w !! "src/lib/node-red.ts") as [n3|];
    cbn [negb orb fst snd files stdout];
    (split; [reflexivity|]); (split; [eexists; reflexivity|]);
    (split; [split; [try discriminate; intros _ | intros (H1 & H2 & H3)]|]);
    repeat match goal with
      | |- _ /\ _ => split
      | |- is_Some (Some _) => eexists; reflexivity
      | H : is_Some None |- _ => destruct H; discriminate
      | H : _ = Some Dir |- _ => discriminate H
      | |- Ret tt = Ret tt \/ _ => left; reflexivity
      | |- _ \/ Raise ?e = Raise ?e => right; reflexivity
      | |- _ = _ => reflexivity
      | |- _ ++ [_] = _ ++ [_] -> _ =>
          let E := fresh in intros E; apply app_inv_head in E; exfalso; revert E;
          vm_compute; discriminate
      | |- _ -> _ => intros _
      end.
Qed.

Lemma same_kind_refl (a : option node) : same_kind a a.
Proof. destruct a as [[|]|]; exact I. Qed.

Lemma same_kind_trans (x y z : option node) :
  same_kind x y -> same_kind y z -> same_kind x z.
Proof. destruct x as [[|]|], y as [[|]|], z as [[|]|]; simpl; tauto. Qed.

Lemma keeps_kinds_same {A} (c : M A) :
  (forall w, files (after c w) = files w) -> keeps_kinds c.
Proof. intros H w g. rewrite H. apply same_kind_refl. Qed.

Lemma keeps_kinds_bind {A B} (c : M A) (k : A -> M B) :
  keeps_kinds c -> (forall x : A, keeps_kinds (k x)) -> keeps_kinds (bind c k).
Proof.
  intros Hc Hk w g. specialize (Hc w g). unfold after, bind in *.
  destruct (c w) as [[x|e] u]; cbn [snd] in *; [|exact Hc].
  apply (same_kind_trans _ _ _ Hc). apply (Hk x u g).
Qed.

Lemma keeps_kinds_print (line : str) : keeps_kinds (print line).
Proof. apply keeps_kinds_same. reflexivity. Qed.

Lemma same_kind_store w (f : string) (t t' : str) (g : string) :
  files w !! f = Some (File t) ->
  same_kind (files w !! g) (files (store w f t') !! g).
Proof.
  intros Hf. cbn [store files]. destruct (decide (g = f)) as [->|Hne].
  - rewrite lookup_insert_eq, Hf. exact I.
  - rewrite lookup_insert_ne by congruence. apply same_kind_refl.
Qed.

Lemma insert_import_keeps_kinds (f : string) (imp : str) :
  keeps_kinds (insert_import f imp).
Proof.
  intros w g. pose proof (insert_import_ends w f imp) as H.
  unfold ends_by_kind, after in *.
  destruct (files w !! f) as [[t|]|] eqn:Hf; rewrite H; cbn [snd];
    try apply same_kind_refl.
  apply (same_kind_store w f t _ g Hf).
Qed.

Lemma insert_before_keeps_kinds (f : string) (m b : str) :
  keeps_kinds (insert_before f m b).
Proof.
  intros w g. pose proof (insert_before_ends w f m b) as H.
  unfold ends_by_kind, after in *.
  destruct (files w !! f) as [[t|]|] eqn:Hf;
    [destruct H as [H|[H|(k & _ & H)]]|..]; rewrite H; cbn [snd];
    try apply same_kind_refl.
  apply (same_kind_store w f t _ g Hf).
Qed.

Lemma insert_after_keeps_kinds (f : string) (m b : str) :
  keeps_kinds (insert_after f m b).
Proof.
  intros w g. pose proof (insert_after_ends w f m b) as H.
  unfold ends_by_kind, after in *.
  destruct (files w !! f) as [[t|]|] eqn:Hf;
    [destruct H as [H|[H|[H|(k & _ & H)]]]|..]; rewrite H; cbn [snd];
    try apply same_kind_refl.
  apply (same_kind_store w f t _ g Hf).
Qed.

Lemma replace_text_keeps_kinds (f : string) (old new : str) :
  keeps_kinds (replace_text f old new).
Proof.
  intros w g. pose proof (replace_text_ends w f old new) as H.
  unfold ends_by_kind, after in *.
  destruct (files w !! f) as [[t|]|] eqn:Hf;
    [destruct H as [H|[H|H]]|..]; rewrite H; cbn [snd];
    try apply same_kind_refl.
  apply (same_kind_store w f t _ g Hf).
Qed.

Lemma check_prereqs_keeps_kinds : keeps_kinds check_prereqs.
Proof. apply keeps_kinds_same, check_prereqs_files. Qed.

#[local] Hint Resolve keeps_kinds_print insert_import_keeps_kinds
  insert_before_keeps_kinds insert_after_keeps_kinds replace_text_keeps_kinds
  check_prereqs_keeps_kinds : effects.

Ltac kinds :=
  repeat match goal with
    | |- keeps_kinds (bind _ _) => apply keeps_kinds_bind; [|intros]
    | |- _ => solve [auto 1 with effects]
    end.

Lemma patches_keep_kinds : keeps_kinds patches.
Proof.
  unfold patches, step1, step2, step3, step4, step5, step6, step7. kinds.
Qed.

Lemma main_keeps_kinds_all : keeps_kinds main.
Proof.
  unfold main. pose proof patches_keep_kinds.
  repeat match goal with
    | |- keeps_kinds (bind _ _) => apply keeps_kinds_bind; [|intros]
    | |- keeps_kinds patches => assumption
    | |- _ => solve [auto 1 with effects]
    end.
Qed.

(** The files after [main] are those it started with, or those its patch
    steps left. *)
Lemma main_files_cases w :
  exists w', files w' = files w
             /\ (files (after main w) = files w
                 \/ files (after main w) = files (after patches w')).
Proof.
  unfold main, after. rewrite !bind_print.
  set (w1 := say _ _). assert (files w1 = files w) as Hw1 by reflexivity.
  clearbody w1.
  pose proof (check_prereqs_files w1) as Hc. unfold after in Hc.
  destruct (check_prereqs w1) as [[[]|e] w2] eqn:C; cbn [snd] in Hc.
  - rewrite (bind_Ret _ _ _ _ _ C). exists w2. split; [congruence|]. right.
    destruct (patches w2) as [[[]|e] u] eqn:E.
    + rewrite (bind_Ret _ _ _ _ _ E). reflexivity.
    + rewrite (bind_Raise _ _ _ _ _ E). reflexivity.
  - rewrite (bind_Raise _ _ _ _ _ C). exists w. split; [reflexivity|]. left.
    cbn [snd]. congruence.
Qed.

(** X14: whatever the tree and however the run ends, [main] changes no
    path other than its seven target files. *)
Theorem main_touches_its_targets_only (w : world) (g : string) :
  g ∉ [Patch.f1; Patch.f2; Patch.f3; Patch.f4; Patch.f5; Patch.f6; Patch.f7] ->
  files (after main w) !! g = files w !! g.
Proof.
  intros Hg. destruct (main_files_cases w) as (w' & Hw' & [E|E]); rewrite E;
    [reflexivity|].
  unfold after. rewrite patches_run_all, <- Hw'.
  apply (run_all_untouched steps g steps_touch Hg).
Qed.

Lemma main_touches_its_targets_only_witness :
  files (after main vote_project) !! "package.json" = files vote_project !! "package.json".
Proof.
  apply (main_touches_its_targets_only vote_project "package.json").
  apply (bool_decide_unpack _). vm_compute. reflexivity.
Defined.

(** X15: no helper creates a path, removes one, or changes a directory
    into a file or back, however it ends (the write of a helper always
    follows a successful read of the same path). *)
Theorem helpers_keep_kinds (w : world) (f g : string) (x y : str) :
  same_kind (files w !! g) (files (after (insert_import f x) w) !! g)
  /\ same_kind (files w !! g) (files (after (insert_before f x y) w) !! g)
  /\ same_kind (files w !! g) (files (after (insert_after f x y) w) !! g)
  /\ same_kind (files w !! g) (files (after (replace_text f x y) w) !! g).
Proof.
  repeat split.
  - apply insert_import_keeps_kinds.
  - apply insert_before_keeps_kinds.
  - apply insert_after_keeps_kinds.
  - apply replace_text_keeps_kinds.
Qed.

(** X16: [main] creates no path, removes none and changes no directory
    into a file or back, however it ends; so the prerequisite checks
    give the same answer after a run as before it. *)
Theorem main_keeps_kinds (w : world) :
  (forall g : string, same_kind (files w !! g) (files (after main w) !! g))
  /\ prereqs_ok (after main w) = prereqs_ok w.
Proof.
  assert (forall g : string, same_kind (files w !! g) (files (after main w) !! g)) as H
    by (intros g; apply main_keeps_kinds_all).
  split; [exact H|]. unfold prereqs_ok.
  pose proof (H "package.json") as H1. pose proof (H "src/app/api") as H2.
  pose proof (H "src/lib/node-red.ts") as H3.
  destruct (files w !! "package.json") as [[|]|],
    (files (after main w) !! "package.json") as [[|]|]; try contradiction;
  destruct (files w !! "src/app/api") as [[|]|],
    (files (after main w) !! "src/app/api") as [[|]|]; try contradiction;
  destruct (files w !! "src/lib/node-red.ts") as [[|]|],
    (files (after main w) !! "src/lib/node-red.ts") as [[|]|]; try contradiction;
  reflexivity.
Qed.

(** ** The lines of the already-applied check *)

Lemma lstrip_head s c : head (lstrip s) = Some c -> isspace c = false.
Proof.
  induction s as [|x s IH]; simpl; [discriminate|].
  destruct (isspace x) eqn:E; [exact IH|]. simpl. intros [= <-]. exact E.
Qed.

Lemma rstrip_prefix s : exists v, s = rstrip s ++ v.
Proof.
  unfold rstrip. destruct (lstrip_suffix (rev s)) as [u Hu].
  exists (rev u). rewrite <- rev_app_distr, <- Hu, rev_involutive. reflexivity.
Qed.

Lemma rstrip_last s c : last (rstrip s) = Some c -> isspace c = false.
Proof.
  unfold rstrip. pose proof (lstrip_head (rev s)) as H.
  destruct (lstrip (rev s)) as [|x r]; [discriminate|].
  cbn [rev]. rewrite last_snoc. intros [= <-]. apply H. reflexivity.
Qed.

Lemma strip_ends s :
  (forall c, head (strip s) = Some c -> isspace c = false)
  /\ (forall c, last (strip s) = Some c -> isspace c = false).
Proof.
  unfold strip. split; [|apply rstrip_last].
  intros c Hc. apply (lstrip_head s).
  destruct (rstrip_prefix (lstrip s)) as [v Hv]. rewrite Hv.
  destruct (rstrip (lstrip s)); [discriminate | exact Hc].
Qed.

Lemma check_lines_elem (b l : str) :
  l ∈ check_lines b ->
  exists l0 : str,
    l = strip l0 /\ l0 ∈ split nl (strip b)
    /\ nonempty l = true /\ startswith l (py "//") = false.
Proof.
  unfold check_lines. intros H.
  apply list_elem_of_In, in_map_iff in H as (l0 & <- & Hl).
  apply filter_In in Hl as [Hl Hp]. apply andb_true_iff in Hp as [Hn Hc].
  exists l0. split; [reflexivity|]. split; [apply list_elem_of_In; exact Hl|].
  split; [exact Hn|]. apply negb_true_iff. exact Hc.
Qed.

Lemma check_lines_nonempty (b l : str) : l ∈ check_lines b -> l <> [].
Proof.
  intros H. destruct (check_lines_elem b l H) as (_ & _ & _ & Hn & _).
  intros ->. discriminate.
Qed.

(** X17: every line the already-applied check may look for is a code line
    of the block: it is not empty, does not start with [//], holds no
    line break, neither begins nor ends with white space, and occurs in
    the block. *)
Theorem check_lines_are_code_lines (b l : str) :
  l ∈ check_lines b ->
  l <> []
  /\ startswith l (py "//") = false
  /\ (nl ∉ l)
  /\ (forall c, head l = Some c -> isspace c = false)
  /\ (forall c, last l = Some c -> isspace c = false)
  /\ contains b l = true.
Proof.
  intros H. destruct (check_lines_elem b l H) as (l0 & E & Hl0 & Hn & Hc).
  split; [apply (check_lines_nonempty b l H)|].
  split; [exact Hc|].
  split; [|split; [|split]].
  - pose proof (split_no_sep nl _ _ Hl0) as Hnl.
    pose proof (strip_contained l0) as Hs. rewrite <- E in Hs.
    apply contains_spec in Hs as (u & v & ->).
    intros Hin. apply Hnl. apply elem_of_app. right. apply elem_of_app. left. exact Hin.
  - rewrite E. apply strip_ends.
  - rewrite E. apply strip_ends.
  - apply check_line_in_block. exact H.
Qed.

Lemma check_lines_are_code_lines_witness :
  let l := py "notify();" in
  l <> []
  /\ startswith l (py "//") = false
  /\ (nl ∉ l)
  /\ (forall c, head l = Some c -> isspace c = false)
  /\ (forall c, last l = Some c -> isspace c = false)
  /\ contains (py "\n  // tell them\n  notify();\n") l = true.
Proof.
  intros l. apply (check_lines_are_code_lines (py "\n  // tell them\n  notify();\n") l).
  vm_compute. left.
Defined.

(** ** Repeated and degenerate calls *)

Lemma contains_empty_text (l : str) : l <> [] -> contains [] l = false.
Proof. destruct l; [congruence | reflexivity]. Qed.

Lemma already_applied_empty_text (b : str) : already_applied [] b = false.
Proof.
  unfold already_applied. destruct (check_lines b) as [|l ls] eqn:E; [reflexivity|].
  apply contains_empty_text. apply (check_lines_nonempty b). rewrite E. left.
Qed.



(** X19: on an empty file the import line becomes the first line,
    followed by a line break, and the other three helpers, given a
    non-empty marker or text to replace, only print their warning. *)
Theorem on_an_empty_file (w : world) (f : string) (x y : str) :
  files w !! f = Some (File []) ->
  x <> [] ->
  insert_import f x w = (Ret tt, store w f (x ++ [nl]))
  /\ insert_before f x y w = (Ret tt, say w (msg_marker_not_found x))
  /\ insert_after f x y w = (Ret tt, say w (msg_marker_not_found x))
  /\ replace_text f x y w = (Ret tt, say w (msg_text_not_found f x)).
Proof.
  intros Hf Hx.
  pose proof (contains_empty_text x Hx) as Hc.
  pose proof (already_applied_empty_text y) as Ha.
  split; [|split; [|split]].
  - rewrite (insert_import_absent w f [] Hf x Hc). reflexivity.
  - apply (insert_before_absent w f [] Hf x y Ha Hc).
  - apply (insert_after_absent w f [] Hf x y Ha Hc).
  - apply (replace_text_absent w f [] Hf x y Hc Ha).
Qed.

Lemma on_an_empty_file_witness :
  let w := World {[ "route.ts" := File [] ]} [] in
  insert_import "route.ts" (py "import x;") w
    = (Ret tt, store w "route.ts" (py "import x;" ++ [nl]))
  /\ insert_before "route.ts" (py "import x;") (py "y();") w
       = (Ret tt, say w (msg_marker_not_found (py "import x;")))
  /\ insert_after "route.ts" (py "import x;") (py "y();") w
       = (Ret tt, say w (msg_marker_not_found (py "import x;")))
  /\ replace_text "route.ts" (py "import x;") (py "y();") w
       = (Ret tt, say w (msg_text_not_found "route.ts" (py "import x;"))).
Proof.
  intros w. apply (on_an_empty_file w "route.ts"); [reflexivity | vm_compute; discriminate].
Defined.





(** ** A helper sees nothing but its own file *)

Lemma local_to_ret {A} (f : string) (x : A) : local_to f (ret x).
Proof.
  intros w1 w2 H. repeat split; [exact H|]. exists []. rewrite !app_nil_r. auto.
Qed.

Lemma local_to_raise {A} (f : string) (e : exn) : local_to f (@raise A e).
Proof.
  intros w1 w2 H. repeat split; [exact H|]. exists []. rewrite !app_nil_r. auto.
Qed.

Lemma local_to_print (f : string) (line : str) : local_to f (print line).
Proof. intros w1 w2 H. repeat split; [exact H|]. exists [line]. auto. Qed.

Lemma local_to_read (f : string) : local_to f (read_file f).
Proof.
  intros w1 w2 H. unfold result, after, read_file. rewrite <- H.
  destruct (files w1 !! f) as [[t|]|] eqn:E; cbn [fst snd];
    (split; [|split]; [congruence..|]); exists []; rewrite !app_nil_r; auto.
Qed.

Lemma local_to_write (f : string) (content : str) : local_to f (write_file f content).
Proof.
  intros w1 w2 H. unfold result, after, write_file. rewrite <- H.
  destruct (files w1 !! f) as [[t|]|] eqn:E; cbn [fst snd files stdout];
    rewrite ?lookup_insert_eq;
    (split; [|split]; [congruence..|]); exists []; rewrite !app_nil_r; auto.
Qed.

Lemma local_to_index (f : string) s sub (start : Z) : local_to f (index s sub start).
Proof.
  unfold index. destruct (_ =? -1); [apply local_to_raise | apply local_to_ret].
Qed.

Lemma local_to_bind {A B} (f : string) (c : M A) (k : A -> M B) :
  local_to f c -> (forall x : A, local_to f (k x)) -> local_to f (bind c k).
Proof.
  intros Hc Hk w1 w2 H. destruct (Hc w1 w2 H) as (Hr & Hf & out & O1 & O2).
  unfold result, after, bind in *.
  destruct (c w1) as [[x1|e1] u1], (c w2) as [[x2|e2] u2]; cbn [fst snd] in *;
    try discriminate.
  - injection Hr as <-.
    destruct (Hk x1 u1 u2 Hf) as (Hr' & Hf' & out' & O1' & O2').
    unfold result, after in *.
    split; [exact Hr'|]. split; [exact Hf'|].
    exists (out ++ out'). rewrite O1', O2', O1, O2, <- !app_assoc. auto.
  - injection Hr as <-. split; [reflexivity|]. split; [exact Hf|]. exists out. auto.
Qed.

#[local] Hint Resolve local_to_ret local_to_raise local_to_print local_to_read
  local_to_write local_to_index : effects.

Ltac locality :=
  repeat match goal with
    | |- local_to _ (bind _ _) => apply local_to_bind; [|intros]
    | |- local_to _ (if ?b then _ else _) => destruct b
    | |- local_to _ (let _ := _ in _) => cbv zeta
    | |- _ => solve [auto 1 with effects]
    end.

Lemma insert_import_local (f : string) (imp : str) : local_to f (insert_import f imp).
Proof. unfold insert_import. locality. Qed.

Lemma insert_before_local (f : string) (m b : str) : local_to f (insert_before f m b).
Proof. unfold insert_before. locality. Qed.

Lemma insert_after_local (f : string) (m b : str) : local_to f (insert_after f m b).
Proof. unfold insert_after. locality. Qed.

Lemma replace_text_local (f : string) (old new : str) :
  local_to f (replace_text f old new).
Proof. unfold replace_text. locality. Qed.

#[local] Hint Resolve insert_import_local insert_before_local insert_after_local
  replace_text_local : effects.

Lemma steps_local : Forall (fun q : string * M unit => local_to (fst q) (snd q)) steps.
Proof.
  unfold steps. repeat apply Forall_cons_2; try apply Forall_nil_2; cbn [fst snd];
    unfold step1, step2, step3, step4, step5, step6, step7; locality.
Qed.

(** X21: how a helper ends, what it prints and what it leaves in its file
    depend only on what is at the path it is called on, not on the rest
    of the tree nor on what was printed before. *)
Theorem helpers_see_their_file_only (w1 w2 : world) (f : string) (x y : str) :
  files w1 !! f = files w2 !! f ->
  forall h : M unit,
    h ∈ [insert_import f x; insert_before f x y; insert_after f x y; replace_text f x y] ->
    result h w1 = result h w2
    /\ files (after h w1) !! f = files (after h w2) !! f
    /\ exists out : list str,
         stdout (after h w1) = stdout w1 ++ out
         /\ stdout (after h w2) = stdout w2 ++ out.
Proof.
  intros H h Hh.
  repeat (apply elem_of_cons in Hh as [->|Hh]); [..|inversion Hh].
  - apply insert_import_local, H.
  - apply insert_before_local, H.
  - apply insert_after_local, H.
  - apply replace_text_local, H.
Qed.

Lemma helpers_see_their_file_only_witness :
  let w1 := World {[ "a.ts" := File (py "x();\n") ]} [] in
  let w2 := World {[ "a.ts" := File (py "x();\n"); "b.ts" := Dir ]} [py "earlier"] in
  let h := insert_before "a.ts" (py "x();") (py "y();\n") in
  result h w1 = result h w2
  /\ files (after h w1) !! "a.ts" = files (after h w2) !! "a.ts"
  /\ exists out : list str,
       stdout (after h w1) = stdout w1 ++ out
       /\ stdout (after h w2) = stdout w2 ++ out.
Proof.
  intros w1 w2 h.
  apply (helpers_see_their_file_only w1 w2 "a.ts" (py "x();") (py "y();\n") eq_refl h).
  apply list_elem_of_further, list_elem_of_here.
Defined.

(** X22: the seven patch steps are independent: when [main] runs to its
    end, each target file is left exactly as its own step, run alone on
    the tree [main] started with, would leave it, and that step alone
    returns too. *)
Theorem main_is_its_steps_taken_alone (w : world) (f : string) (s : M unit) :
  result main w = Ret tt ->
  (f, s) ∈ steps ->
  result s w = Ret tt
  /\ files (after main w) !! f = files (after s w) !! f.
Proof.
  intros Hr Hin. destruct (main_file w f s Hr Hin) as (W & HW & HR & HA).
  pose proof steps_local as L. rewrite Forall_forall in L.
  destruct (L (f, s) Hin W w HW) as (Er & Ef & _). cbn [fst snd] in *.
  split; [rewrite <- Er; exact HR | rewrite HA; exact Ef].
Qed.

Lemma main_is_its_steps_taken_alone_witness :
  result step4 vote_project = Ret tt
  /\ files (after main vote_project) !! Patch.f4 = files (after step4 vote_project) !! Patch.f4.
Proof.
  apply (main_is_its_steps_taken_alone vote_project Patch.f4 step4).
  - vm_compute. reflexivity.
  - unfold steps. nth_member 3%nat.
Defined.

(** ** When [main] runs to its end *)














(** ** A second run on the files that get an inserted block *)

Lemma contains_splice_line (t x mid : str) k :
  nl ∉ x -> x <> [] ->
  firstn k t = [] \/ (exists p', firstn k t = p' ++ [nl]) ->
  contains t x = true ->
  contains (splice t (nl :: mid ++ [nl]) k) x = true.
Proof.
  intros Hx Hne Hk Hc. destruct (contains (splice _ _ _) x) eqn:E; [reflexivity|].
  apply occurrences_zero in E. unfold splice in E.
  rewrite (occurrences_splice x Hx Hne _ _ mid Hk), take_drop in E.
  assert (occurrences t x = 0%nat) as Z by lia.
  apply occurrences_zero in Z. congruence.
Qed.

Section Settled.

Context (f : string) (imp m b mid line : str).
Hypothesis imp_line : nl ∉ imp.
Hypothesis imp_nonempty : imp <> [].
Hypothesis b_framed : b = nl :: mid ++ [nl].
Hypothesis b_checkable : check_lines b <> [].

(** On a file that holds the import and is recognised as patched, a step
    changes nothing. *)
Lemma settled_file (h : M unit) W (t : str) :
  files W !! f = Some (File t) ->
  contains t imp = true ->
  (forall U, files U = files W -> files (after h U) = files U) ->
  files (after (print line ;; insert_import f imp ;; h) W) !! f = files W !! f.
Proof.
  intros Hf Hc Hh. unfold after in *. rewrite bind_print.
  rewrite (bind_Ret _ _ _ _ _ (insert_import_present (say W line) f t Hf imp Hc)).
  rewrite (Hh (say W line) eq_refl). reflexivity.
Qed.

Lemma insert_before_settled W (t : str) :
  files W !! f = Some (File t) ->
  already_applied t b = true \/ contains t m = false ->
  forall U, files U = files W -> files (after (insert_before f m b) U) = files U.
Proof.
  intros Hf Hc U HU. rewrite <- HU in Hf. unfold after.
  destruct (already_applied t b) eqn:Ha.
  - rewrite (insert_before_already U f t Hf m b Ha). reflexivity.
  - destruct Hc as [?|Hc]; [discriminate|].
    rewrite (insert_before_absent U f t Hf m b Ha Hc). reflexivity.
Qed.

Lemma insert_after_settled W (t : str) :
  files W !! f = Some (File t) ->
  already_applied t b = true \/ contains t m = false ->
  forall U, files U = files W -> files (after (insert_after f m b) U) = files U.
Proof.
  intros Hf Hc U HU. rewrite <- HU in Hf. unfold after.
  destruct (already_applied t b) eqn:Ha.
  - rewrite (insert_after_already U f t Hf m b Ha). reflexivity.
  - destruct Hc as [?|Hc]; [discriminate|].
    rewrite (insert_after_absent U f t Hf m b Ha Hc). reflexivity.
Qed.

Lemma step_before_settled W1 W2 :
  result (print line ;; insert_import f imp ;; insert_before f m b) W1 = Ret tt ->
  files W2 !! f
    = files (after (print line ;; insert_import f imp ;; insert_before f m b) W1) !! f ->
  files (after (print line ;; insert_import f imp ;; insert_before f m b) W2) !! f
    = files W2 !! f.
Proof.
  unfold result at 1, after at 1. rewrite !bind_print.
  set (V := say W1 line).
  pose proof (insert_import_ends V f imp) as H. unfold ends_by_kind in H.
  destruct (files V !! f) as [[t|]|] eqn:Hf;
    [|rewrite (bind_Raise _ _ _ _ _ H); discriminate..].
  rewrite (bind_Ret _ _ _ _ _ H). clear H.
  set (t' := import_inserted t imp). set (U := store V f t').
  assert (files U !! f = Some (File t')) as HU by apply lookup_insert_eq.
  assert (contains t' imp = true) as Hi by apply import_inserted_contains.
  destruct (already_applied t' b) eqn:Ha;
    [|destruct (find_nat t' m) as [i|] eqn:F].
  - rewrite (insert_before_already U f t' HU m b Ha). cbn [fst snd say files].
    intros _ H2. rewrite HU in H2.
    apply (settled_file _ W2 t' H2 Hi).
    apply (insert_before_settled W2 t' H2). left. exact Ha.
  - rewrite (insert_before_patch U f t' HU m b i Ha F).
    fold (splice t' b (line_start t' i)). cbn [fst snd say store files].
    rewrite lookup_insert_eq. intros _ H2.
    assert (i <= length t')%nat by (apply find_nat_bound in F; lia).
    apply (settled_file _ W2 _ H2).
    + rewrite b_framed. apply contains_splice_line; try assumption.
      apply line_start_prefix. assumption.
    + apply (insert_before_settled W2 _ H2). left.
      apply applied_after_splice, b_checkable.
  - pose proof (proj2 (contains_find_nat _ _) F) as Hm.
    rewrite (insert_before_absent U f t' HU m b Ha Hm). cbn [fst snd say files].
    intros _ H2. rewrite HU in H2.
    apply (settled_file _ W2 t' H2 Hi).
    apply (insert_before_settled W2 t' H2). right. exact Hm.
Qed.

Lemma step_after_settled W1 W2 :
  result (print line ;; insert_import f imp ;; insert_after f m b) W1 = Ret tt ->
  files W2 !! f
    = files (after (print line ;; insert_import f imp ;; insert_after f m b) W1) !! f ->
  files (after (print line ;; insert_import f imp ;; insert_after f m b) W2) !! f
    = files W2 !! f.
Proof.
  unfold result at 1, after at 1. rewrite !bind_print.
  set (V := say W1 line).
  pose proof (insert_import_ends V f imp) as H. unfold ends_by_kind in H.
  destruct (files V !! f) as [[t|]|] eqn:Hf;
    [|rewrite (bind_Raise _ _ _ _ _ H); discriminate..].
  rewrite (bind_Ret _ _ _ _ _ H). clear H.
  set (t' := import_inserted t imp). set (U := store V f t').
  assert (files U !! f = Some (File t')) as HU by apply lookup_insert_eq.
  assert (contains t' imp = true) as Hi by apply import_inserted_contains.
  destruct (already_applied t' b) eqn:Ha;
    [|destruct (find_nat t' m) as [i|] eqn:F; [destruct (line_end t' i) as [k|] eqn:L|]].
  - rewrite (insert_after_already U f t' HU m b Ha). cbn [fst snd say files].
    intros _ H2. rewrite HU in H2.
    apply (settled_file _ W2 t' H2 Hi).
    apply (insert_after_settled W2 t' H2). left. exact Ha.
  - rewrite (insert_after_patch U f t' HU m b i k Ha F L).
    fold (splice t' b k). cbn [fst snd say store files].
    rewrite lookup_insert_eq. intros _ H2.
    assert (i <= length t')%nat by (apply find_nat_bound in F; lia).
    apply (settled_file _ W2 _ H2).
    + rewrite b_framed. apply contains_splice_line; try assumption.
      right. apply (line_end_prefix t' i k); assumption.
    + apply (insert_after_settled W2 _ H2). left.
      apply applied_after_splice, b_checkable.
  - rewrite (insert_after_raises U f t' HU m b i Ha F L). discriminate.
  - pose proof (proj2 (contains_find_nat _ _) F) as Hm.
    rewrite (insert_after_absent U f t' HU m b Ha Hm). cbn [fst snd say files].
    intros _ H2. rewrite HU in H2.
    apply (settled_file _ W2 t' H2 Hi).
    apply (insert_after_settled W2 t' H2). right. exact Hm.
Qed.

End Settled.

(** The block of a patch begins and ends with a line break. *)
Ltac framed b :=
  exists (removelast (tl b)); vm_compute; reflexivity.

(** X24: a second complete run leaves the five files that get an import
    and an inserted block exactly as the first run left them, whatever
    they held before (the two files patched by [replace_text] are not
    covered: there a second run can patch again). *)
Theorem second_run_keeps_inserted_files (w : world) (f : string) :
  result main w = Ret tt ->
  result main (after main w) = Ret tt ->
  f ∈ [Patch.f1; Patch.f2; Patch.f3; Patch.f6; Patch.f7] ->
  files (after main (after main w)) !! f = files (after main w) !! f.
Proof.
  intros R1 R2 Hf.
  assert (exists s : M unit,
            (f, s) ∈ steps
            /\ forall W1 W2, result s W1 = Ret tt ->
                 files W2 !! f = files (after s W1) !! f ->
                 files (after s W2) !! f = files W2 !! f) as (s & Hin & Hs).
  { repeat (apply elem_of_cons in Hf as [->|Hf]); [..|inversion Hf].
    - exists step1. split; [unfold steps; nth_member 0%nat|].
      assert (exists mid, Patch.block1 = nl :: mid ++ [nl]) as [mid Hb]
        by framed Patch.block1.
      apply (step_before_settled _ _ _ _ mid); [literal | literal | exact Hb | literal].
    - exists step2. split; [unfold steps; nth_member 1%nat|].
      assert (exists mid, Patch.block2 = nl :: mid ++ [nl]) as [mid Hb]
        by framed Patch.block2.
      apply (step_before_settled _ _ _ _ mid); [literal | literal | exact Hb | literal].
    - exists step3. split; [unfold steps; nth_member 2%nat|].
      assert (exists mid, Patch.block3 = nl :: mid ++ [nl]) as [mid Hb]
        by framed Patch.block3.
      apply (step_after_settled _ _ _ _ mid); [literal | literal | exact Hb | literal].
    - exists step6. split; [unfold steps; nth_member 5%nat|].
      assert (exists mid, Patch.block6 = nl :: mid ++ [nl]) as [mid Hb]
        by framed Patch.block6.
      apply (step_before_settled _ _ _ _ mid); [literal | literal | exact Hb | literal].
    - exists step7. split; [unfold steps; nth_member 6%nat|].
      assert (exists mid, Patch.block7 = nl :: mid ++ [nl]) as [mid Hb]
        by framed Patch.block7.
      apply (step_after_settled _ _ _ _ mid); [literal | literal | exact Hb | literal]. }
  destruct (main_file w f s R1 Hin) as (W1 & _ & HR1 & HA1).
  destruct (main_file (after main w) f s R2 Hin) as (W2 & HW2 & _ & HA2).
  rewrite HA2, <- HW2. apply (Hs W1 W2 HR1). rewrite HW2. exact HA1.
Qed.

Lemma second_run_keeps_inserted_files_witness :
  files (after main (after main vote_project)) !! Patch.f1
  = files (after main vote_project) !! Patch.f1.
Proof.
  apply (second_run_keeps_inserted_files vote_project Patch.f1).
  - vm_compute. reflexivity.
  - vm_compute. reflexivity.
  - apply list_elem_of_here.
Defined.

(** ** Why a run of [main] stops *)







(** X26: [insert_import] never hides a one-line marker from the helper
    that runs after it: a non-empty marker without a line break that
    occurs in the file still occurs in it once the import line is in,
    whatever the import line is. *)
Theorem import_keeps_one_line_marker
    (w : world) (f : string) (t imp marker : str) :
  files w !! f = Some (File t) ->
  nl ∉ marker ->
  marker <> [] ->
  contains t marker = true ->
  exists t' : str,
    file_text (after (insert_import f imp) w) f = Some t'
    /\ contains t' marker = true.
Proof.
  intros Hf Hnl Hne Hc. exists (import_inserted t imp). split.
  - unfold after. rewrite (insert_import_run w f t imp Hf).
    apply file_text_Some, lookup_insert_eq.
  - apply marker_survives_import; assumption.
Qed.

Lemma import_keeps_one_line_marker_witness :
  let w := World {[ "route.ts" := File (py "import a;\nreturn x;\n") ]} [] in
  exists t' : str,
    file_text (after (insert_import "route.ts" (py "import b;")) w) "route.ts" = Some t'
    /\ contains t' (py "return x;") = true.
Proof.
  intros w.
  apply (import_keeps_one_line_marker w "route.ts" (py "import a;\nreturn x;\n")
           (py "import b;") (py "return x;"));
    [reflexivity | apply find_nat_char_None; reflexivity
    | vm_compute; discriminate | reflexivity].
Defined.
